(** * PicaBot: a shallow embedding of [picabot/picabot.py]

    The development follows the Python source function by function:
    the command tokenizer ([_split_message]), the sliding-window
    reconnection limiter ([_should_reconnect]), the frame decoder and
    router ([_on_message]), the read loop ([_listen]), the run loop
    ([connect]) and the outbound operations ([send], [close]). *)

From Stdlib Require Import ZArith NArith List Bool Lia String Ascii.
From stdpp Require Import base option list gmap.
Import ListNotations.

Local Open Scope Z_scope.

Set Warnings "-register-all".

(* ===================================================================== *)
(** * Python strings *)
(* ===================================================================== *)

(** A Python [str] is a sequence of Unicode code points. *)
Definition pystr : Type := list N.

(** String literals of the development, read as Latin-1 code points. *)
Definition py (s : string) : pystr := map N_of_ascii (list_ascii_of_string s).
Arguments py : simpl never.

(** The double quote and the line feed, the two characters the
    tokenizer's pattern singles out. *)
Definition DQ : N := 34%N.
Definition LF : N := 10%N.

(** [ch.isspace()] on a one-character [str], the class the [re] module
    uses for [\s] on [str] patterns: U+0009..000D, U+001C..0020, U+0085,
    U+00A0, U+1680, U+2000..200A, U+2028, U+2029, U+202F, U+205F,
    U+3000. *)
Definition is_space (c : N) : bool :=
  (((9 <=? c) && (c <=? 13)) || ((28 <=? c) && (c <=? 32))
   || (c =? 133) || (c =? 160) || (c =? 5760)
   || ((8192 <=? c) && (c <=? 8202))
   || (c =? 8232) || (c =? 8233) || (c =? 8239) || (c =? 8287)
   || (c =? 12288))%N.
Arguments is_space : simpl never.

(** [s.startswith(p)] *)
Fixpoint startswith (s p : pystr) {struct p} : bool :=
  match p, s with
  | [], _ => true
  | _ :: _, [] => false
  | a :: p', b :: s' => if decide (a = b) then startswith s' p' else false
  end.

(** [s[n:]] *)
Definition slice_from (n : nat) (s : pystr) : pystr := drop n s.

(** Truth value of a [str]: the empty string is falsy. *)
Definition truthy (s : pystr) : bool :=
  match s with [] => false | _ :: _ => true end.

(* ===================================================================== *)
(** * The command tokenizer *)
(* ===================================================================== *)

Module Tokenizer.

(** The pattern of [_split_message] is [r'"(.*?)"|(\S+)'].

    First alternative, after the opening quote has been read: the
    lazy [.*?] takes as few characters as it can before a closing
    quote; [.] does not match a line feed (the pattern is compiled
    without DOTALL).  The result is group 1 and the rest of the
    subject after the closing quote. *)
Fixpoint lazy_dots_then_quote (s : pystr) : option (pystr * pystr) :=
  match s with
  | [] => None
  | c :: s' =>
      if decide (c = DQ) then Some ([], s')
      else if decide (c = LF) then None
      else match lazy_dots_then_quote s' with
           | Some (g, rest) => Some (c :: g, rest)
           | None => None
           end
  end.

Definition match_quoted (s : pystr) : option (pystr * pystr) :=
  match s with
  | c :: s' => if decide (c = DQ) then lazy_dots_then_quote s' else None
  | [] => None
  end.

(** Second alternative: the greedy [\S+]; the run and the rest. *)
Fixpoint nonspace_run (s : pystr) : pystr * pystr :=
  match s with
  | [] => ([], [])
  | c :: s' =>
      if is_space c then ([], s)
      else let '(r, rest) := nonspace_run s' in (c :: r, rest)
  end.

(** One match attempt at the head of [s]: the tuple of the two groups
    (a group that took no part is the empty string, as [findall]
    reports it) and the subject after the match. *)
Definition match_here (s : pystr) : option ((pystr * pystr) * pystr) :=
  match match_quoted s with
  | Some (g1, rest) => Some ((g1, []), rest)
  | None =>
      match nonspace_run s with
      | ([], _) => None
      | (g2, rest) => Some (([], g2), rest)
      end
  end.

(** [re.findall]: scan from left to right; after a match go on behind
    it, where nothing matches move one character on.  Every match of
    this pattern takes at least one character, so the length of the
    subject bounds the number of steps. *)
Fixpoint findall_from (fuel : nat) (s : pystr) : list (pystr * pystr) :=
  match fuel with
  | O => []
  | S fuel' =>
      match s with
      | [] => []
      | _ :: s' =>
          match match_here s with
          | Some (m, rest) => m :: findall_from fuel' rest
          | None => findall_from fuel' s'
          end
      end
  end.

Definition findall (s : pystr) : list (pystr * pystr) :=
  findall_from (length s) s.

(** [[m[0] if m[0] else m[1] for m in matches]] *)
Definition pick (m : pystr * pystr) : pystr :=
  if truthy (fst m) then fst m else snd m.

Definition _split_message (message : pystr) : list pystr :=
  let matches := findall message in
  map pick matches.

End Tokenizer.
Export Tokenizer.

(* ===================================================================== *)
(** * Decoded records, exceptions and the observable trace *)
(* ===================================================================== *)

(** What [json.loads] returns: [None], [bool], [int], [float], [str],
    [list] and [dict] with [str] keys.  A float is kept as its literal;
    nothing in the bot computes with one. *)
Inductive json : Type :=
| JNull
| JBool (b : bool)
| JInt (z : Z)
| JFloat (literal : pystr)
| JStr (s : pystr)
| JList (items : list json)
| JDict (fields : gmap pystr json).

(** The exceptions the bot raises, catches or lets through.
    [NotConnected] is the [ConnectionError("Not connected")] of [send];
    [JSONDecodeError] is caught by name in [_on_message] and
    [ConnectionClosed] in [_listen]; [KeyboardInterrupt] and the other
    direct subclasses of [BaseException] are not instances of
    [Exception]. *)
Inductive exn : Type :=
| KeyError (key : pystr)
| TypeError
| AttributeError
| ValueError
| JSONDecodeError
| NotConnected
| ConnectionClosed
| KeyboardInterrupt
| OtherException (tag : nat)
| OtherBaseException (tag : nat).

#[global] Instance exn_eq_dec : EqDecision exn.
Proof. solve_decision. Defined.

(** [isinstance(e, Exception)] *)
Definition is_Exception (e : exn) : bool :=
  match e with
  | KeyboardInterrupt | OtherBaseException _ => false
  | _ => true
  end.

Inductive result (A : Type) : Type :=
| Ok (a : A)
| Raise (e : exn).
Arguments Ok {A} a.
Arguments Raise {A} e.

(** [class PicaMessage]: a view over one decoded sub-record. *)
Record PicaMessage : Type := mkPicaMessage { data : json }.

(** Listeners and command handlers are user code; the bot only stores
    and calls them. *)
Definition callable : Type := nat.

(** A websocket connection handle. *)
Definition handle : Type := nat.

(** Positional arguments the bot passes to user code. *)
Inductive pyval : Type :=
| VJson (j : json)
| VMsg (m : PicaMessage)
| VStr (s : pystr).

(** The messages given to [logger]. *)
Inductive log_record : Type :=
| InfoConnected (server : pystr)
| ErrorFailedToConnect (e : exn)
| InfoReconnecting
| InfoExceeded
| ErrorConnectionClosed (e : exn)
| ErrorError (e : exn)
| ErrorFailedToParse (msg : pystr).

(** What an observer of the bot sees, oldest first.  [Emit] marks the
    entry into [emit]; [Invoke] the call of a listener or of a command
    handler. *)
Inductive action : Type :=
| Log (r : log_record)
| Emit (event : pystr) (args : list pyval)
| Invoke (f : callable) (args : list pyval)
| WsConnect (target : pystr)
| WsSend (h : handle) (text : pystr)
| WsClose (h : handle)
| Sleep (seconds : Z).

(** [class PicaBot]: the fields set by [__init__]. *)
Record PicaBot : Type := mkPicaBot {
  bot_name : pystr;
  uri : pystr;
  server : pystr;
  prefix : pystr;
  ws : option handle;
  _listeners : gmap pystr (list callable);
  _reconnection_attempts : list Z;
  _commands : gmap pystr callable
}.

(** The bot, what it has done so far, and how many times the clock has
    been read. *)
Record world : Type := mkWorld {
  bot : PicaBot;
  trace : list action;
  ticks : nat
}.

(** Everything outside the bot: the wall clock ([datetime.now()], in
    microseconds), the [json] module, the builtin [int], the
    [websockets] transport and the registered user code.  A user callable may change the bot and
    may raise. *)
Record Env : Type := mkEnv {
  clock : nat -> Z;
  json_loads : pystr -> result json;
  json_dumps : json -> result pystr;
  py_int : json -> result Z;
  run_callable : callable -> list pyval -> PicaBot -> option exn * PicaBot;
  ws_connect : pystr -> list action -> result handle;
  ws_frames : handle -> list pystr * option exn;
  ws_send : handle -> pystr -> list action -> option exn;
  ws_close : handle -> list action -> option exn
}.

(** ** A state monad in which exceptions keep the state *)

Definition M (A : Type) : Type := world -> result A * world.

#[global] Instance M_ret : MRet M := fun A (a : A) w => (Ok a, w).
#[global] Instance M_bind : MBind M := fun A B (k : A -> M B) (m : M A) w =>
  match m w with
  | (Ok a, w') => k a w'
  | (Raise e, w') => (Raise e, w')
  end.

Definition raise {A} (e : exn) : M A := fun w => (Raise e, w).
Definition lift {A} (r : result A) : M A := fun w => (r, w).
Definition gets {A} (f : PicaBot -> A) : M A := fun w => (Ok (f (bot w)), w).
Definition record (a : action) : M unit :=
  fun w => (Ok tt, mkWorld (bot w) (trace w ++ [a]) (ticks w)).
Definition set_bot (b : PicaBot) : M unit :=
  fun w => (Ok tt, mkWorld b (trace w) (ticks w)).

(** The sequencing notations, fixed to [M]. *)
Declare Scope py_scope.
Delimit Scope py_scope with py.
Notation "x ← y ; z" := (mbind (M := M) (fun x => z) y)
  (at level 20, y at level 100, z at level 200, only parsing) : py_scope.
Notation "x ;; z" := (mbind (M := M) (fun _ => z) x)
  (at level 100, z at level 200, only parsing, right associativity) : py_scope.
Local Open Scope py_scope.

(** [logger.info] and [logger.error] *)
Definition log (r : log_record) : M unit := record (Log r).

(** [for x in xs: body(x)] *)
Fixpoint for_each {A} (body : A -> M unit) (xs : list A) : M unit :=
  match xs with
  | [] => mret tt
  | x :: xs' => body x ;; for_each body xs'
  end.

(* ===================================================================== *)
(** * The sliding-window limiter *)
(* ===================================================================== *)

Module Limiter.

(** A [datetime] is its distance from a fixed origin in microseconds,
    a [timedelta] a difference of two.  [timedelta.seconds] is the
    seconds field of the normalised triple (days, seconds,
    microseconds), between 0 and 86399 whatever the sign. *)
Definition timedelta_seconds (d : Z) : Z := (d / 1000000) mod 86400.
Arguments timedelta_seconds : simpl never.

(** [list.remove(x)]: drops the first item equal to [x]. *)
Fixpoint remove_first (x : Z) (l : list Z) : list Z :=
  match l with
  | [] => []
  | y :: l' => if decide (x = y) then l' else y :: remove_first x l'
  end.

(** The [for attempt in self._reconnection_attempts] loop.  The list
    iterator keeps an index into the list it walks and stops when the
    index reaches the current length, so removing an item makes the
    loop step over the item that slides into its place.  Each turn
    reads the clock once; [tick] counts the readings.  A turn moves
    the index one up and the length never grows, hence the length of
    the list at entry bounds the number of turns. *)
Fixpoint prune_from (clock : nat -> Z) (fuel i : nat)
    (l : list Z) (tick : nat) : list Z * nat :=
  match fuel with
  | O => (l, tick)
  | S fuel' =>
      match l !! i with
      | None => (l, tick)
      | Some attempt =>
          if 10 <? timedelta_seconds (clock tick - attempt)
          then prune_from clock fuel' (S i) (remove_first attempt l) (S tick)
          else prune_from clock fuel' (S i) l (S tick)
      end
  end.

(** [_should_reconnect] on the two pieces of state it touches: the
    list of attempts and the clock. *)
Definition check (clock : nat -> Z) (l : list Z) (tick : nat)
    : bool * (list Z * nat) :=
  let l1 := l ++ [clock tick] in
  let '(l2, tick2) := prune_from clock (length l1) 0 l1 (S tick) in
  if (5 <=? length l2)%nat then (false, (l2, tick2)) else (true, (l2, tick2)).

End Limiter.

(* ===================================================================== *)
(** * The bot *)
(* ===================================================================== *)

(** [PicaBot.__init__] *)
Definition PicaBot_init (uri command_prefix bot_name server : pystr) : PicaBot :=
  {| bot_name := bot_name; uri := uri; server := server;
     prefix := command_prefix; ws := None; _listeners := ∅;
     _reconnection_attempts := []; _commands := ∅ |}.

Definition scheme (secure : bool) : pystr := if secure then py "wss" else py "ws".

(** [PicaBot.from_token] *)
Definition from_token (token bot_name command_prefix server : pystr)
    (secure : bool) : PicaBot :=
  PicaBot_init (scheme secure ++ py "://" ++ server ++ py "/chat/token=" ++ token)
               command_prefix bot_name server.

(** [PicaBot.from_password] *)
Definition from_password (username password bot_name command_prefix server : pystr)
    (secure : bool) : PicaBot :=
  PicaBot_init (scheme secure ++ py "://" ++ server ++ py "/bot/username="
                  ++ username ++ py "&password=" ++ password)
               command_prefix bot_name server.

(** The [connected] property *)
Definition connected (b : PicaBot) : bool :=
  match ws b with None => false | Some _ => true end.

(** The decorator returned by [on(event)], applied to [func]. *)
Definition on (event : pystr) (func : callable) (b : PicaBot) : PicaBot :=
  let ls := match _listeners b !! event with
            | None => <[event := []]> (_listeners b)
            | Some _ => _listeners b
            end in
  {| bot_name := bot_name b; uri := uri b; server := server b;
     prefix := prefix b; ws := ws b;
     _listeners := alter (fun fs => fs ++ [func]) event ls;
     _reconnection_attempts := _reconnection_attempts b;
     _commands := _commands b |}.

(** The decorator returned by [command(name)], applied to [func]. *)
Definition command (name : pystr) (func : callable) (b : PicaBot) : PicaBot :=
  {| bot_name := bot_name b; uri := uri b; server := server b;
     prefix := prefix b; ws := ws b; _listeners := _listeners b;
     _reconnection_attempts := _reconnection_attempts b;
     _commands := <[name := func]> (_commands b) |}.

Definition with_ws (h : option handle) (b : PicaBot) : PicaBot :=
  {| bot_name := bot_name b; uri := uri b; server := server b;
     prefix := prefix b; ws := h; _listeners := _listeners b;
     _reconnection_attempts := _reconnection_attempts b;
     _commands := _commands b |}.

Definition with_attempts (l : list Z) (b : PicaBot) : PicaBot :=
  {| bot_name := bot_name b; uri := uri b; server := server b;
     prefix := prefix b; ws := ws b; _listeners := _listeners b;
     _reconnection_attempts := l;
     _commands := _commands b |}.

(** ** Operations of the interpreter on decoded values *)

(** [obj[key]] with a [str] key: only a [dict] can be subscripted by a
    string. *)
Definition getitem (obj : json) (key : pystr) : result json :=
  match obj with
  | JDict d => match d !! key with
               | Some v => Ok v
               | None => Raise (KeyError key)
               end
  | _ => Raise TypeError
  end.

(** [obj.get(key)]: only a [dict] has the method. *)
Definition get (obj : json) (key : pystr) : result json :=
  match obj with
  | JDict d => Ok (default JNull (d !! key))
  | _ => Raise AttributeError
  end.

(** [for part in obj]: a list gives its items, a string its
    characters, a dict its keys; nothing else can be iterated. *)
Definition iterate (obj : json) : result (list json) :=
  match obj with
  | JList l => Ok l
  | JStr s => Ok (map (fun c => JStr [c]) s)
  | JDict d => Ok (map (fun kv => JStr (fst kv)) (map_to_list d))
  | _ => Raise TypeError
  end.

(** [obj == s] for a [str] [s] *)
Definition eq_str (obj : json) (s : pystr) : bool :=
  match obj with
  | JStr s' => bool_decide (s' = s)
  | _ => false
  end.

(** ** The accessors of [PicaMessage] *)

Module Envelope.

Definition channel_id (m : PicaMessage) : result json := getitem (data m) (py "c").
Definition channel_name (m : PicaMessage) : result json := getitem (data m) (py "rn").
Definition channel_color (m : PicaMessage) : result json := getitem (data m) (py "rc").
Definition message_timestamp (int : json -> result Z) (m : PicaMessage) : result Z :=
  match getitem (data m) (py "a") with
  | Ok v => int v
  | Raise e => Raise e
  end.
Definition message_id (m : PicaMessage) : result json := getitem (data m) (py "id").
Definition message (m : PicaMessage) : result json := getitem (data m) (py "m").
Definition user_id (m : PicaMessage) : result json := getitem (data m) (py "u").
Definition user_name (m : PicaMessage) : result json := getitem (data m) (py "n").
Definition user_color (m : PicaMessage) : result json := getitem (data m) (py "k").
Definition user_profile_pic (m : PicaMessage) : result json := getitem (data m) (py "i").

(** The ten fields with the key each accessor reads; the timestamp is
    given back as an [int]. *)
Definition accessors (int : json -> result Z)
    : list (pystr * (PicaMessage -> result json)) :=
  [ (py "c", channel_id); (py "rn", channel_name); (py "rc", channel_color);
    (py "a", fun m => match message_timestamp int m with
                      | Ok z => Ok (JInt z)
                      | Raise e => Raise e
                      end);
    (py "id", message_id); (py "m", message); (py "u", user_id);
    (py "n", user_name); (py "k", user_color); (py "i", user_profile_pic) ].

End Envelope.

(** ** The methods that act on the world *)

Section Bot.

Context (E : Env).

(** [_should_reconnect]; the readings of [datetime.now()] it makes are
    counted in [ticks]. *)
Definition _should_reconnect : M bool :=
  fun w =>
    let '(allowed, (l, t)) :=
      Limiter.check (clock E) (_reconnection_attempts (bot w)) (ticks w) in
    (Ok allowed, mkWorld (with_attempts l (bot w)) (trace w) t).

(** Calling a listener or a command handler and awaiting it. *)
Definition call (f : callable) (args : list pyval) : M unit :=
  fun w =>
    let '(outcome, b) := run_callable E f args (bot w) in
    let w' := mkWorld b (trace w ++ [Invoke f args]) (ticks w) in
    match outcome with
    | None => (Ok tt, w')
    | Some e => (Raise e, w')
    end.

(** [asyncio.gather] over the tasks: every task is started; the first
    exception raised is the one the awaiting caller gets.  The tasks
    are run here one after the other, in the order of the list. *)
Fixpoint gather (tasks : list (M unit)) : M unit :=
  match tasks with
  | [] => mret tt
  | t :: ts =>
      fun w =>
        let '(r, w1) := t w in
        let '(rs, w2) := gather ts w1 in
        (match r with Ok _ => rs | Raise e => Raise e end, w2)
  end.

(** [emit] *)
Definition emit (event : pystr) (args : list pyval) : M unit :=
  record (Emit event args) ;;
  ls ← gets _listeners ;
  match ls !! event with
  | Some listeners => gather (map (fun listener => call listener args) listeners)
  | None => mret tt
  end.

(** The body of the loop over the sub-records of a chat batch.
    [command_name, *args = ...] needs at least one token. *)
Definition route (part : json) : M unit :=
  let p_message := mkPicaMessage part in
  who ← lift (Envelope.user_name p_message) ;
  message ← lift (Envelope.message p_message) ;
  name ← gets bot_name ;
  if eq_str who name then mret tt
  else
    pre ← gets prefix ;
    match message with
    | JStr body =>
        if startswith body pre then
          match _split_message (slice_from (length pre) body) with
          | [] => raise ValueError
          | command_name :: args =>
              cmds ← gets _commands ;
              match cmds !! command_name with
              | Some handler => call handler (VMsg p_message :: map VStr args)
              | None => emit (py "message") [VMsg p_message]
              end
          end
        else emit (py "message") [VMsg p_message]
    | _ => raise AttributeError
    end.

(** [_on_message] *)
Definition _on_message (msg : pystr) : M unit :=
  if negb (truthy msg) then mret tt
  else
    match json_loads E msg with
    | Raise JSONDecodeError => log (ErrorFailedToParse msg)
    | Raise e => raise e
    | Ok message =>
        emit (py "raw") [VJson message] ;;
        t ← lift (get message (py "t")) ;
        if eq_str t (py "c") then
          m ← lift (getitem message (py "m")) ;
          parts ← lift (iterate m) ;
          for_each route parts
        else mret tt
    end.

(** The [async for message in self.ws] loop over the frames the
    connection delivers; [ending] is how the iteration stops. *)
Fixpoint listen_loop (frames : list pystr) (ending : option exn) : M unit :=
  match frames with
  | [] => match ending with
          | None => mret tt
          | Some e => raise e
          end
  | message :: frames' => _on_message message ;; listen_loop frames' ending
  end.

(** The [try] block of [_listen]. *)
Definition read_frames : M unit :=
  h ← gets ws ;
  match h with
  | Some h => listen_loop (fst (ws_frames E h)) (snd (ws_frames E h))
  | None => raise TypeError
  end.

(** [_listen] *)
Definition _listen : M unit :=
  fun w =>
    match read_frames w with
    | (Ok _, w') => (Ok tt, w')
    | (Raise e, w') =>
        if decide (e = ConnectionClosed) then log (ErrorConnectionClosed e) w'
        else if is_Exception e then log (ErrorError e) w'
        else (Raise e, w')
    end.

(** [close] *)
Definition close : M unit :=
  h ← gets ws ;
  match h with
  | Some h =>
      record (WsClose h) ;;
      fun w => match ws_close E h (trace w) with
               | None => (Ok tt, w)
               | Some e => (Raise e, w)
               end
  | None => mret tt
  end.

(** [send] *)
Definition send (message : json) : M unit :=
  h ← gets ws ;
  match h with
  | None => raise NotConnected
  | Some h =>
      text ← lift (json_dumps E message) ;
      record (WsSend h text) ;;
      fun w => match ws_send E h text (trace w) with
               | None => (Ok tt, w)
               | Some e => (Raise e, w)
               end
  end.

(** [sent_message] *)
Definition sent_message (message : pystr) : M unit :=
  send (JDict (<[py "type" := JStr (py "chat")]>
               (<[py "message" := JStr message]> ∅))).

(** [delete_message] *)
Definition delete_message (message_id channel_id : pystr) : M unit :=
  send (JDict (<[py "type" := JStr (py "removeMessage")]>
               (<[py "messageId" := JStr message_id]>
                (<[py "channelId" := JStr channel_id]> ∅)))).

(** The [try] block of [connect]. *)
Definition connect_and_listen : M unit :=
  target ← gets uri ;
  record (WsConnect target) ;;
  h ← (fun w => (ws_connect E target (trace w), w)) ;
  b ← gets (with_ws (Some h)) ;
  set_bot b ;;
  srv ← gets server ;
  log (InfoConnected srv) ;;
  _listen.

(** [connect].  The loop goes on for as long as attempts are
    admitted; [fuel] bounds the number of turns, and [None] means
    that the loop is still running when the fuel is spent. *)
Fixpoint connect (fuel : nat) (w : world) : option (result unit * world) :=
  let retry fuel' w :=
    match (log InfoReconnecting ;; record (Sleep 1)) w with
    | (_, w') => connect fuel' w'
    end in
  match fuel with
  | O => None
  | S fuel' =>
      match _should_reconnect w with
      | (Raise e, w1) => Some (Raise e, w1)
      | (Ok false, w1) => Some (log InfoExceeded w1)
      | (Ok true, w1) =>
          match connect_and_listen w1 with
          | (Ok _, w2) => retry fuel' w2
          | (Raise e, w2) =>
              if decide (e = KeyboardInterrupt) then Some (close w2)
              else if is_Exception e then
                match log (ErrorFailedToConnect e) w2 with
                | (_, w3) => retry fuel' w3
                end
              else Some (Raise e, w2)
          end
      end
  end.

End Bot.

(* ===================================================================== *)
(** * The specification's tokenizer *)
(* ===================================================================== *)

Module Spec.

(** The specification words the tokenizer so: "a double-quoted span
    (non-greedy, may be empty) is one token equal to its interior
    content; any maximal run of non-whitespace characters outside
    quotes is one token", tokens being produced from left to right.
    [spec_split_message] reads these words as they stand: a span
    runs from a quote to the nearest quote after it, whatever lies
    between and wherever it begins, and a run ends at whitespace or
    where a span begins. *)
Fixpoint until_quote (s : pystr) : option (pystr * pystr) :=
  match s with
  | [] => None
  | c :: s' =>
      if decide (c = DQ) then Some ([], s')
      else match until_quote s' with
           | Some (g, rest) => Some (c :: g, rest)
           | None => None
           end
  end.

Definition span_here (s : pystr) : option (pystr * pystr) :=
  match s with
  | c :: s' => if decide (c = DQ) then until_quote s' else None
  | [] => None
  end.

Fixpoint plain_run (s : pystr) : pystr * pystr :=
  match s with
  | [] => ([], [])
  | c :: s' =>
      if is_space c then ([], s)
      else match span_here s with
           | Some _ => ([], s)
           | None => let '(r, rest) := plain_run s' in (c :: r, rest)
           end
  end.

Fixpoint spec_tokens (fuel : nat) (s : pystr) : list pystr :=
  match fuel with
  | O => []
  | S fuel' =>
      match s with
      | [] => []
      | c :: s' =>
          match span_here s with
          | Some (g, rest) => g :: spec_tokens fuel' rest
          | None =>
              if is_space c then spec_tokens fuel' s'
              else let '(r, rest) := plain_run s in r :: spec_tokens fuel' rest
          end
      end
  end.

Definition spec_split_message (s : pystr) : list pystr :=
  spec_tokens (length s) s.

(** What the pattern does, said without the pattern.  A quoted span
    counts only where a token may begin and only if no line feed
    lies between its quotes; everywhere else a token is a maximal
    run of non-whitespace characters, quotes included. *)
Definition quoted_here (s : pystr) : Prop :=
  exists body rest, s = DQ :: (body ++ DQ :: rest) /\ (DQ ∉ body) /\ (LF ∉ body).

Inductive tokens : pystr -> list pystr -> Prop :=
| tokens_end : tokens [] []
| tokens_space c s ts :
    is_space c = true -> tokens s ts -> tokens (c :: s) ts
| tokens_quoted body rest ts :
    DQ ∉ body -> LF ∉ body -> tokens rest ts ->
    tokens (DQ :: (body ++ DQ :: rest)) (body :: ts)
| tokens_run run rest ts :
    run <> [] ->
    Forall (fun c => is_space c = false) run ->
    match rest with [] => True | c :: _ => is_space c = true end ->
    ~ quoted_here (run ++ rest) ->
    tokens rest ts ->
    tokens (run ++ rest) (run :: ts).

End Spec.

(* ===================================================================== *)
(** * A small bot for the examples *)
(* ===================================================================== *)

Module Demo.

(** A string between double quotes, as it stands in a JSON text. *)
Definition q (s : string) : pystr := DQ :: py s ++ [DQ].

Definition greet : callable := 1%nat.
Definition on_message : callable := 2%nat.
Definition on_raw : callable := 3%nat.

(** A bot named pica with the prefix [!], the command [greet] and one
    listener for each of the two events. *)
Definition pica : PicaBot :=
  on (py "raw") on_raw
    (on (py "message") on_message
       (command (py "greet") greet
          (from_token (py "secret") (py "pica") (py "!")
                      (py "chat.picarto.tv") true))).

Definition start : world := mkWorld pica [] 0.

Definition envelope (who body : pystr) : json :=
  JDict (<[py "n" := JStr who]> (<[py "m" := JStr body]> ∅)).

Definition batch (parts : list json) : json :=
  JDict (<[py "t" := JStr (py "c")]> (<[py "m" := JList parts]> ∅)).

(** The text of a chat batch with one sub-record that has a user name
    and a body. *)
Definition frame (who body : string) : pystr :=
  py "{" ++ q "t" ++ py ":" ++ q "c" ++ py "," ++ q "m" ++ py ":[{"
     ++ q "n" ++ py ":" ++ q who ++ py "," ++ q "m" ++ py ":" ++ q body
     ++ py "}]}".

(** The text of a chat batch with two such sub-records. *)
Definition frame_of_two (who1 body1 who2 body2 : string) : pystr :=
  py "{" ++ q "t" ++ py ":" ++ q "c" ++ py "," ++ q "m" ++ py ":[{"
     ++ q "n" ++ py ":" ++ q who1 ++ py "," ++ q "m" ++ py ":" ++ q body1
     ++ py "},{"
     ++ q "n" ++ py ":" ++ q who2 ++ py "," ++ q "m" ++ py ":" ++ q body2
     ++ py "}]}".

(** A decoder that knows the frames of the examples. *)
Definition loads (msg : pystr) : result json :=
  if decide (msg = frame_of_two "alice" "! " "bob" "hello") then
    Ok (batch [envelope (py "alice") (py "! "); envelope (py "bob") (py "hello")])
  else if decide (msg = frame "alice" "!") then
    Ok (batch [envelope (py "alice") (py "!")])
  else if decide (msg = frame "alice" "hello") then
    Ok (batch [envelope (py "alice") (py "hello")])
  else if decide (msg = frame "pica" "!greet me") then
    Ok (batch [envelope (py "pica") (py "!greet me")])
  else if decide (msg = frame "alice" "!greet Alice") then
    Ok (batch [envelope (py "alice") (py "!greet Alice")])
  else if decide (msg = frame "alice" "!unknown x") then
    Ok (batch [envelope (py "alice") (py "!unknown x")])
  else Raise JSONDecodeError.

(** User code that returns without touching the bot, a transport
    that refuses every connection, and a clock that moves one
    millisecond with every reading. *)
Definition env : Env :=
  {| clock := fun n => Z.of_nat n * 1000;
     json_loads := loads;
     json_dumps := fun _ => Ok (py "{}");
     py_int := fun j => match j with JInt z => Ok z | _ => Raise TypeError end;
     run_callable := fun _ _ b => (None, b);
     ws_connect := fun _ _ => Raise (OtherException 0);
     ws_frames := fun _ => ([], None);
     ws_send := fun _ _ _ => None;
     ws_close := fun _ _ => None |}.

(** The same surroundings with a clock that reads the same time of
    day on five successive days: the checks take two, three, four,
    five and six readings, each a microsecond after the one
    before. *)
Definition day : Z := 86400 * 1000000.

Definition daily_clock (n : nat) : Z :=
  let d := if (n <? 2)%nat then 0
           else if (n <? 5)%nat then 1
           else if (n <? 9)%nat then 2
           else if (n <? 14)%nat then 3
           else 4 in
  d * day + Z.of_nat n.

Definition daily_env : Env :=
  {| clock := daily_clock;
     json_loads := loads;
     json_dumps := fun _ => Ok (py "{}");
     py_int := fun j => match j with JInt z => Ok z | _ => Raise TypeError end;
     run_callable := fun _ _ b => (None, b);
     ws_connect := fun _ _ => Raise (OtherException 0);
     ws_frames := fun _ => ([], None);
     ws_send := fun _ _ _ => None;
     ws_close := fun _ _ => None |}.

End Demo.

(** [n] admission checks one after the other. *)
Fixpoint attempts (E : Env) (n : nat) : M (list bool) :=
  match n with
  | O => mret []
  | S n' => b ← _should_reconnect E ; bs ← attempts E n' ; mret (b :: bs)
  end.

(** Consecutive entries of a list of times are at least [gap] apart. *)
Fixpoint spaced (gap : Z) (l : list Z) : bool :=
  match l with
  | a :: ((b :: _) as l') => (a + gap <=? b) && spaced gap l'
  | _ => true
  end.

(* ===================================================================== *)
(** * Terms of the statements *)
(* ===================================================================== *)

(** The shape of a greedy run. *)
Definition stops_at_space (rest : pystr) : Prop :=
  match rest with [] => True | c :: _ => is_space c = true end.

(** How many items of a list a test accepts. *)
Fixpoint count (Q : Z -> bool) (l : list Z) : nat :=
  match l with
  | [] => 0
  | a :: l' => (if Q a then 1 else 0) + count Q l'
  end.

(** The attempts made between the times [T] and [U]. *)
Definition in_window (T U a : Z) : bool := (T <=? a) && (a <=? U).

(** A list of attempts as spaced attempts leave it: at most two
    entries, none before [a0] or after [last], two of them at least ten
    seconds apart. *)
Definition recent (a0 last : Z) (l : list Z) : Prop :=
  Forall (fun a => a0 <= a <= last) l
  /\ (l = [] \/ (exists y, l = [y])
      \/ (exists x y, l = [x; y] /\ x + 10000000 <= y)).

(** The admission check on the state of a world. *)
Definition check_of (E : Env) (w : world) : bool * (list Z * nat) :=
  Limiter.check (clock E) (_reconnection_attempts (bot w)) (ticks w).

(** What a run of checks inside one window maintains: some time [U]
    not before [T] and not after any reading still to come before
    [tmax] has at least [c] recorded attempts between [T] and it. *)
Definition window_holds (E : Env) (T : Z) (tmax c : nat) (w : world) : Prop :=
  exists U, T <= U
    /\ (forall i, (ticks w <= i < tmax)%nat -> U <= clock E i)
    /\ (c <= count (in_window T U) (_reconnection_attempts (bot w)))%nat.

(** The times at which [n] checks in a row record their attempts. *)
Fixpoint attempt_times (E : Env) (n : nat) (w : world) : list Z :=
  match n with
  | O => []
  | S n' => clock E (ticks w) :: attempt_times E n' (snd (_should_reconnect E w))
  end.

(** [" ".join(ts)] *)
Fixpoint join_words (ts : list pystr) : pystr :=
  match ts with
  | [] => []
  | [t] => t
  | t :: ts' => t ++ 32%N :: join_words ts'
  end.

(** A string put between double quotes. *)
Definition quoted (t : pystr) : pystr := DQ :: t ++ [DQ].

(** A word that needs no quotes: not empty, no whitespace, no quote. *)
Definition plain_word (t : pystr) : Prop :=
  t <> [] /\ Forall (fun c => is_space c = false) t /\ (DQ ∉ t).

(** What [__init__] sets once and the registration calls fill in. *)
Definition configuration (b : PicaBot)
    : pystr * pystr * pystr * pystr * gmap pystr (list callable) * gmap pystr callable :=
  (bot_name b, uri b, server b, prefix b, _listeners b, _commands b).

(** User code that keeps a property of the bot. *)
Definition user_code_keeps (E : Env) (I : PicaBot -> Prop) : Prop :=
  forall f args b, I b -> I (snd (run_callable E f args b)).

(** The actions of message handling: log records, events and calls
    of user code; the others act on the transport or wait. *)
Definition quiet (a : action) : Prop :=
  match a with
  | Log _ | Emit _ _ | Invoke _ _ => True
  | _ => False
  end.

(** A step that takes every world to one related to it by [R]. *)
Definition stays {A} (R : world -> world -> Prop) (m : M A) : Prop :=
  forall w, R w (snd (m w)).

(** The later world has the same clock count as the earlier one and
    its trace only adds quiet actions. *)
Definition quietly_after (w w' : world) : Prop :=
  ticks w' = ticks w
  /\ exists tail, trace w' = trace w ++ tail /\ Forall quiet tail.

(** A property of the bot that holds in the later world if it held in
    the earlier one. *)
Definition kept (I : PicaBot -> Prop) (w w' : world) : Prop :=
  I (bot w) -> I (bot w').

(** How many connections a trace shows being opened. *)
Fixpoint connects (tr : list action) : nat :=
  match tr with
  | [] => 0
  | WsConnect _ :: tr' => S (connects tr')
  | _ :: tr' => connects tr'
  end.

(** User code that leaves the list of attempts alone. *)
Definition attempts_untouched (E : Env) : Prop :=
  forall f args b,
    _reconnection_attempts (snd (run_callable E f args b))
    = _reconnection_attempts b.

(** Unfolding the sequencing of [M]. *)
Ltac run_M :=
  unfold mbind, M_bind, mret, M_ret, lift, gets, raise, log, record, set_bot;
  cbn [fst snd bot trace ticks data].

(* ===================================================================== *)
(** * The tokenizer: what the pattern accepts *)
(* ===================================================================== *)

Section TokenizerFacts.

Import Spec.

Lemma lazy_dots_sound s g rest :
  lazy_dots_then_quote s = Some (g, rest) ->
  s = g ++ DQ :: rest /\ (DQ ∉ g) /\ (LF ∉ g).
Proof.
  revert g rest. induction s as [|c s IH]; intros g rest H; simpl in H.
  - discriminate.
  - destruct (decide (c = DQ)) as [->|Hq].
    + injection H as <- <-. split; [reflexivity|]. split; apply not_elem_of_nil.
    + destruct (decide (c = LF)) as [->|Hl]; [discriminate|].
      destruct (lazy_dots_then_quote s) as [[g' r']|] eqn:Hs; [|discriminate].
      injection H as <- <-.
      destruct (IH g' r' eq_refl) as (-> & Hd & Hn).
      split; [reflexivity|].
      split; apply not_elem_of_cons; auto.
Qed.

Lemma lazy_dots_complete g rest :
  DQ ∉ g -> LF ∉ g -> lazy_dots_then_quote (g ++ DQ :: rest) = Some (g, rest).
Proof.
  induction g as [|c g IH]; intros Hd Hn; simpl.
  - destruct (decide (DQ = DQ)); [reflexivity|congruence].
  - apply not_elem_of_cons in Hd as [Hd1 Hd2].
    apply not_elem_of_cons in Hn as [Hn1 Hn2].
    destruct (decide (c = DQ)); [congruence|].
    destruct (decide (c = LF)); [congruence|].
    now rewrite IH.
Qed.

Lemma match_quoted_sound s g rest :
  match_quoted s = Some (g, rest) ->
  s = DQ :: (g ++ DQ :: rest) /\ (DQ ∉ g) /\ (LF ∉ g).
Proof.
  destruct s as [|c s]; simpl; [discriminate|].
  destruct (decide (c = DQ)) as [->|]; [|discriminate].
  intros H. apply lazy_dots_sound in H as (-> & Hd & Hn). auto.
Qed.

Lemma match_quoted_complete g rest :
  DQ ∉ g -> LF ∉ g -> match_quoted (DQ :: (g ++ DQ :: rest)) = Some (g, rest).
Proof.
  intros Hd Hn. simpl. destruct (decide (DQ = DQ)); [|congruence].
  now apply lazy_dots_complete.
Qed.

Lemma match_quoted_None s : match_quoted s = None <-> ~ quoted_here s.
Proof.
  split.
  - intros H (body & rest & -> & Hd & Hn).
    rewrite match_quoted_complete in H by assumption. discriminate.
  - intros H. destruct (match_quoted s) as [[g rest]|] eqn:Hm; [|reflexivity].
    exfalso. apply H. apply match_quoted_sound in Hm as (-> & Hd & Hn).
    exists g, rest. auto.
Qed.

Lemma nonspace_run_sound s r rest :
  nonspace_run s = (r, rest) ->
  s = r ++ rest /\ Forall (fun c => is_space c = false) r /\ stops_at_space rest.
Proof.
  revert r rest. induction s as [|c s IH]; intros r rest H; simpl in H.
  - injection H as <- <-. repeat split; constructor.
  - destruct (is_space c) eqn:Hc.
    + injection H as <- <-. repeat split; [constructor|exact Hc].
    + destruct (nonspace_run s) as [r' rest'] eqn:Hs.
      injection H as <- <-.
      destruct (IH r' rest' eq_refl) as (-> & Hall & Hstop).
      repeat split; [constructor; assumption|assumption].
Qed.

Lemma nonspace_run_complete r rest :
  Forall (fun c => is_space c = false) r -> stops_at_space rest ->
  nonspace_run (r ++ rest) = (r, rest).
Proof.
  induction 1 as [|c r Hc Hall IH]; intros Hstop; simpl.
  - destruct rest as [|c rest]; [reflexivity|].
    simpl in Hstop. simpl. now rewrite Hstop.
  - rewrite Hc, IH by assumption. reflexivity.
Qed.

(** Every match takes at least one character. *)
Lemma match_here_shorter s m rest :
  match_here s = Some (m, rest) -> (length rest < length s)%nat.
Proof.
  unfold match_here.
  destruct (match_quoted s) as [[g r]|] eqn:Hq.
  - intros H. injection H as <- <-.
    apply match_quoted_sound in Hq as (-> & _ & _).
    simpl. rewrite length_app. simpl. lia.
  - destruct (nonspace_run s) as [r rest'] eqn:Hr.
    destruct r as [|c r]; [discriminate|].
    intros H. injection H as <- <-.
    apply nonspace_run_sound in Hr as (-> & _ & _).
    simpl. rewrite length_app. lia.
Qed.

(** The fuel given by [findall] is enough: more changes nothing. *)
Lemma findall_from_fuel n s :
  (length s <= n)%nat -> findall_from n s = findall_from (length s) s.
Proof.
  revert s. induction n as [n IH] using lt_wf_ind. intros s Hn.
  destruct s as [|c s]; [destruct n; reflexivity|].
  destruct n as [|n]; [simpl in Hn; lia|].
  cbn [length findall_from].
  destruct (match_here (c :: s)) as [[m rest]|] eqn:Hm.
  - apply match_here_shorter in Hm as Hlen. simpl in Hn, Hlen.
    rewrite (IH n) by lia. rewrite (IH (length s)) by lia. reflexivity.
  - simpl in Hn. rewrite (IH n) by lia. reflexivity.
Qed.

Lemma pick_quoted g : pick (g, []) = g.
Proof. destruct g; reflexivity. Qed.

Lemma pick_run g : pick ([], g) = g.
Proof. reflexivity. Qed.

Lemma tokens_findall n s :
  (length s <= n)%nat -> tokens s (map pick (findall_from n s)).
Proof.
  revert s. induction n as [n IH] using lt_wf_ind. intros s Hn.
  destruct s as [|c s]; [destruct n; constructor|].
  destruct n as [|n]; [simpl in Hn; lia|].
  cbn [findall_from]. unfold match_here.
  destruct (match_quoted (c :: s)) as [[g rest]|] eqn:Hq.
  - apply match_quoted_sound in Hq as Hs. destruct Hs as (Hs & Hd & Hl).
    rewrite Hs in *. cbn [map]. rewrite pick_quoted.
    constructor; [assumption..|]. apply IH; [lia|].
    simpl in Hn. rewrite length_app in Hn. simpl in Hn. lia.
  - destruct (nonspace_run (c :: s)) as [r rest] eqn:Hr.
    apply nonspace_run_sound in Hr as Hs. destruct Hs as (Hs & Hall & Hstop).
    destruct r as [|c' r].
    + simpl in Hs. subst rest. simpl in Hstop.
      constructor; [assumption|]. apply IH; [lia|]. simpl in Hn. lia.
    + rewrite Hs. cbn [map]. rewrite pick_run.
      constructor; [discriminate|assumption|exact Hstop| |].
      * rewrite <- Hs. now apply match_quoted_None.
      * apply IH; [lia|]. rewrite Hs in Hn. simpl in Hn.
        rewrite length_app in Hn. lia.
Qed.

Lemma tokens_unique s ts :
  tokens s ts -> forall n, (length s <= n)%nat -> map pick (findall_from n s) = ts.
Proof.
  induction 1 as [|c s ts Hc _ IH|body rest ts Hd Hl _ IH
                  |r rest ts Hne Hall Hstop Hnq _ IH]; intros n Hn.
  - destruct n; reflexivity.
  - destruct n as [|n]; [simpl in Hn; lia|].
    cbn [findall_from]. unfold match_here.
    assert (Hq : match_quoted (c :: s) = None).
    { simpl. destruct (decide (c = DQ)) as [->|]; [discriminate Hc|reflexivity]. }
    rewrite Hq. simpl. rewrite Hc. apply IH. simpl in Hn. lia.
  - destruct n as [|n]; [simpl in Hn; lia|].
    cbn [findall_from]. unfold match_here.
    rewrite match_quoted_complete by assumption.
    cbn [map]. rewrite pick_quoted. f_equal. apply IH.
    simpl in Hn. rewrite length_app in Hn. simpl in Hn. lia.
  - destruct n as [|n].
    { destruct r; [congruence|simpl in Hn; lia]. }
    destruct r as [|c r]; [congruence|].
    pose proof (nonspace_run_complete (c :: r) rest Hall Hstop) as Hrun.
    cbn [app] in *. cbn [findall_from]. unfold match_here.
    rewrite (proj2 (match_quoted_None _) Hnq), Hrun.
    cbn [map]. rewrite pick_run. f_equal. apply IH.
    simpl in Hn. rewrite length_app in Hn. lia.
Qed.

End TokenizerFacts.

(** C5, as the specification words it, fails on the code.  In
    [x"a b"] the quoted span does not begin a token, so the pattern
    takes the runs [x"a] and [b"]; in ["a<LF>b"] a line feed lies
    between the quotes, which [.] does not match, so again two runs
    come out instead of the interior as one token. *)
Lemma C5_counterexample :
  _split_message (py "x" ++ [DQ] ++ py "a b" ++ [DQ])
    = [py "x" ++ [DQ] ++ py "a"; py "b" ++ [DQ]] /\
  Spec.spec_split_message (py "x" ++ [DQ] ++ py "a b" ++ [DQ])
    = [py "x"; py "a b"] /\
  _split_message ([DQ] ++ py "a" ++ [LF] ++ py "b" ++ [DQ])
    = [[DQ] ++ py "a"; py "b" ++ [DQ]] /\
  Spec.spec_split_message ([DQ] ++ py "a" ++ [LF] ++ py "b" ++ [DQ])
    = [py "a" ++ [LF] ++ py "b"] /\
  ~ (forall s, _split_message s = Spec.spec_split_message s).
Proof.
  repeat split; try (vm_compute; reflexivity).
  intros H. specialize (H (py "x" ++ [DQ] ++ py "a b" ++ [DQ])).
  vm_compute in H. discriminate H.
Qed.

(** C5, amended.  For every input string [_split_message] gives
    exactly the tokens of [Spec.tokens]: from left to right, skipping
    whitespace, a double-quoted span that begins where a token may
    begin and has no line feed (and no quote) between its quotes gives
    its interior, possibly empty, as one token; anywhere else the
    maximal run of non-whitespace characters, quotes included, is one
    token.  The two examples of the specification come out as it says:
    [cmd "hello world" foo] gives [cmd], [hello world], [foo], and
    ["" a b] gives the empty token, [a], [b]. *)
Theorem C5_split_message_tokens :
  (forall s ts, Spec.tokens s ts <-> _split_message s = ts) /\
  _split_message (py "cmd " ++ [DQ] ++ py "hello world" ++ [DQ] ++ py " foo")
    = [py "cmd"; py "hello world"; py "foo"] /\
  _split_message ([DQ; DQ] ++ py " a b") = [[]; py "a"; py "b"].
Proof.
  split; [|split; vm_compute; reflexivity].
  intros s ts. unfold _split_message, findall. split.
  - intros H. now apply tokens_unique.
  - intros <-. now apply tokens_findall.
Qed.

(* ===================================================================== *)
(** * The limiter: what a check keeps and when it refuses *)
(* ===================================================================== *)

Section LimiterFacts.

Import Limiter.

Variable clk : nat -> Z.

Lemma length_remove_first x l : (length (remove_first x l) <= length l)%nat.
Proof.
  induction l as [|y l IH]; simpl; [lia|].
  destruct (decide (x = y)); simpl; lia.
Qed.

(** The fuel given by [check] is enough: the loop always stops
    because the index has reached the end of the list. *)
Lemma prune_from_fuel fuel : forall fuel' i l t,
  (length l - i <= fuel)%nat -> (length l - i <= fuel')%nat ->
  prune_from clk fuel i l t = prune_from clk fuel' i l t.
Proof.
  induction fuel as [|fuel IH]; intros fuel' i l t H H'.
  - assert (l !! i = None) as Hi by (apply lookup_ge_None; lia).
    destruct fuel'; simpl; [reflexivity|now rewrite Hi].
  - destruct (l !! i) as [a|] eqn:Hi.
    + apply lookup_lt_Some in Hi as Hlt.
      destruct fuel' as [|fuel']; [lia|]. simpl. rewrite Hi.
      pose proof (length_remove_first a l).
      destruct (10 <? timedelta_seconds (clk t - a)); apply IH; lia.
    + destruct fuel'; simpl; rewrite ?Hi; reflexivity.
Qed.

Lemma check_fuel_enough l t fuel :
  (length (l ++ [clk t]) <= fuel)%nat ->
  prune_from clk fuel 0 (l ++ [clk t]) (S t)
    = prune_from clk (length (l ++ [clk t])) 0 (l ++ [clk t]) (S t).
Proof. intros H. apply prune_from_fuel; lia. Qed.

Lemma prune_from_ticks fuel : forall i l t,
  (t <= snd (prune_from clk fuel i l t))%nat.
Proof.
  induction fuel as [|fuel IH]; intros i l t; simpl; [lia|].
  destruct (l !! i) as [a|]; simpl; [|lia].
  destruct (10 <? timedelta_seconds (clk t - a));
    match goal with |- (_ <= snd (prune_from _ _ ?j ?m _))%nat =>
      specialize (IH j m (S t)) end; lia.
Qed.

Lemma count_le_length Q l : (count Q l <= length l)%nat.
Proof. induction l as [|a l IH]; simpl; [lia|]. destruct (Q a); lia. Qed.

Lemma count_app Q l1 l2 : count Q (l1 ++ l2) = (count Q l1 + count Q l2)%nat.
Proof. induction l1 as [|a l1 IH]; simpl; [reflexivity|]. rewrite IH. lia. Qed.

Lemma count_mono (Q Q' : Z -> bool) l :
  (forall a, Q a = true -> Q' a = true) -> (count Q l <= count Q' l)%nat.
Proof.
  intros H. induction l as [|a l IH]; simpl; [lia|].
  specialize (H a). destruct (Q a); [rewrite H by reflexivity|destruct (Q' a)]; lia.
Qed.

Lemma count_remove_first Q x l :
  Q x = false -> count Q (remove_first x l) = count Q l.
Proof.
  intros Hx. induction l as [|y l IH]; simpl; [reflexivity|].
  destruct (decide (x = y)) as [<-|]; simpl; [now rewrite Hx|now rewrite IH].
Qed.

(** Items that no reading of the loop finds stale all stay. *)
Lemma prune_from_keeps Q fuel : forall i l t,
  (forall a k, Q a = true ->
     (t <= k < snd (prune_from clk fuel i l t))%nat ->
     (10 <? timedelta_seconds (clk k - a)) = false) ->
  count Q (fst (prune_from clk fuel i l t)) = count Q l.
Proof.
  induction fuel as [|fuel IH]; intros i l t H; simpl in *; [reflexivity|].
  destruct (l !! i) as [a|] eqn:Hi; simpl in *; [|reflexivity].
  destruct (10 <? timedelta_seconds (clk t - a)) eqn:Hold.
  - pose proof (prune_from_ticks fuel (S i) (remove_first a l) (S t)).
    rewrite IH.
    + apply count_remove_first. destruct (Q a) eqn:Ha; [|reflexivity].
      rewrite (H a t) in Hold; [discriminate|assumption|lia].
    + intros b k Hb Hk. apply H; [assumption|lia].
  - pose proof (prune_from_ticks fuel (S i) l (S t)).
    apply IH. intros b k Hb Hk. apply H; [assumption|lia].
Qed.

(** An item at most ten seconds old is not stale. *)
Lemma young_not_stale d :
  0 <= d <= 10000000 -> (10 <? timedelta_seconds d) = false.
Proof.
  intros [H0 H1]. unfold timedelta_seconds.
  assert (0 <= d / 1000000 <= 10) as [Ha Hb].
  { split; [apply Z.div_pos; lia|].
    apply Z.div_le_upper_bound; lia. }
  rewrite Z.mod_small by lia. apply Z.ltb_ge. assumption.
Qed.

Lemma in_window_widen T U U' l :
  U <= U' -> (count (in_window T U) l <= count (in_window T U') l)%nat.
Proof.
  intros H. apply count_mono. intros a. unfold in_window.
  rewrite !andb_true_iff, !Z.leb_le. lia.
Qed.

(** One check whose readings all lie between [U] and ten seconds
    after [T] keeps every attempt made between [T] and [U], adds its
    own, and refuses as soon as four were there before. *)
Lemma check_in_window T U l t :
  let res := check clk l t in
  (forall i j, (t <= i <= j)%nat -> (j < snd (snd res))%nat -> clk i <= clk j) ->
  (forall i, (t <= i < snd (snd res))%nat -> U <= clk i <= T + 10000000) ->
  T <= U ->
  (S (count (in_window T U) l)
     <= count (in_window T (clk t)) (fst (snd res)))%nat /\
  ((4 <= count (in_window T U) l)%nat -> fst res = false).
Proof.
  unfold check.
  destruct (prune_from clk (length (l ++ [clk t])) 0 (l ++ [clk t]) (S t))
    as [l2 t2] eqn:Hp.
  pose proof (prune_from_ticks (length (l ++ [clk t])) 0 (l ++ [clk t]) (S t)) as Ht.
  rewrite Hp in Ht. simpl in Ht.
  assert (Hres : snd (snd (if (5 <=? length l2)%nat
                           then (false, (l2, t2)) else (true, (l2, t2)))) = t2)
    by (destruct (5 <=? length l2)%nat; reflexivity).
  cbv zeta. rewrite Hres. intros Hmono Hwin HTU.
  assert (Hkeep : count (in_window T (clk t)) l2
                  = count (in_window T (clk t)) (l ++ [clk t])).
  { replace l2 with (fst (prune_from clk (length (l ++ [clk t])) 0
                            (l ++ [clk t]) (S t))) by now rewrite Hp.
    apply prune_from_keeps. rewrite Hp. simpl. intros a k Ha Hk.
    unfold in_window in Ha. apply andb_true_iff in Ha as [Ha1 Ha2].
    apply Z.leb_le in Ha1, Ha2.
    apply young_not_stale.
    pose proof (Hmono t k ltac:(lia) ltac:(lia)).
    pose proof (Hwin k ltac:(lia)). lia. }
  pose proof (Hwin t ltac:(lia)) as Hnow.
  assert (Hnew : in_window T (clk t) (clk t) = true).
  { unfold in_window. apply andb_true_iff. split; apply Z.leb_le; lia. }
  rewrite count_app in Hkeep. simpl in Hkeep. rewrite Hnew in Hkeep.
  pose proof (in_window_widen T U (clk t) l ltac:(lia)) as Hwide.
  assert (Hcount : (S (count (in_window T U) l)
                      <= count (in_window T (clk t)) l2)%nat) by lia.
  split.
  - destruct (5 <=? length l2)%nat; simpl; exact Hcount.
  - intros H4. pose proof (count_le_length (in_window T (clk t)) l2).
    destruct (5 <=? length l2)%nat eqn:H5; [reflexivity|].
    apply Nat.leb_gt in H5. lia.
Qed.

(** An item between eleven seconds and a day old is stale. *)
Lemma old_is_stale d :
  11000000 <= d < 86400000000 -> (10 <? timedelta_seconds d) = true.
Proof.
  intros [H0 H1]. unfold timedelta_seconds.
  assert (11 <= d / 1000000 < 86400) as [Ha Hb].
  { split; [apply Z.div_le_lower_bound; lia|].
    apply Z.div_lt_upper_bound; lia. }
  rewrite Z.mod_small by lia. apply Z.ltb_lt. lia.
Qed.

(** One check on a list left by spaced attempts, made ten seconds or
    more after the last of them and less than a day after the first:
    it admits, and leaves such a list again. *)
Lemma check_spaced a0 last l t :
  recent a0 last l ->
  let res := check clk l t in
  (forall i j, (t <= i <= j)%nat -> (j < snd (snd res))%nat -> clk i <= clk j) ->
  (forall i, (t <= i < snd (snd res))%nat -> a0 <= clk i < a0 + 86400000000) ->
  last + 10000000 <= clk t ->
  fst res = true /\ recent a0 (clk t) (fst (snd res)).
Proof.
  intros [Hall Hshape]. unfold check.
  destruct Hshape as [->|[(y & ->)|(x & y & -> & Hxy)]];
    repeat match goal with H : Forall _ (_ :: _) |- _ =>
      apply Forall_cons in H as [? H] end;
    cbn [app length prune_from lookup list_lookup remove_first Nat.leb];
    repeat (match goal with
            | |- context [if ?c then _ else _] => destruct c eqn:?
            end; cbn [app length prune_from lookup list_lookup remove_first Nat.leb]);
    cbn [fst snd Nat.leb length]; intros Hmono Hwin Hlast;
    pose proof (Hwin t ltac:(lia));
    cbn [length] in *;
    try (exfalso; congruence);
    try (exfalso;
         pose proof (Hwin (S t) ltac:(lia));
         pose proof (Hmono t (S t) ltac:(lia) ltac:(lia));
         match goal with H : (10 <? timedelta_seconds (clk (S t) - x)) = false |- _ =>
           rewrite old_is_stale in H by lia; discriminate H end);
    (split; [reflexivity|]);
    unfold recent;
    (split; [repeat constructor; lia|]);
    first [ left; reflexivity
          | right; left; eexists; reflexivity
          | right; right; do 2 eexists; split; [reflexivity|lia] ].
Qed.

Lemma check_ticks l t : (t < snd (snd (check clk l t)))%nat.
Proof.
  unfold check.
  pose proof (prune_from_ticks (length (l ++ [clk t])) 0 (l ++ [clk t]) (S t)) as Ht.
  destruct (prune_from clk _ 0 _ (S t)) as [l2 t2].
  destruct (5 <=? length l2)%nat; simpl in *; lia.
Qed.

End LimiterFacts.

(* ===================================================================== *)
(** * The admission check inside the bot *)
(* ===================================================================== *)

Section Admission.

Context (E : Env).

Lemma should_reconnect_unfold w :
  _should_reconnect E w =
    (Ok (fst (check_of E w)),
     mkWorld (with_attempts (fst (snd (check_of E w))) (bot w))
             (trace w) (snd (snd (check_of E w)))).
Proof.
  unfold _should_reconnect, check_of.
  destruct (Limiter.check _ _ _) as [b [l t]]. reflexivity.
Qed.

(** The check never raises, and only the list of attempts and the
    clock change. *)
Lemma should_reconnect_total w :
  exists b, fst (_should_reconnect E w) = Ok b
            /\ trace (snd (_should_reconnect E w)) = trace w
            /\ ws (bot (snd (_should_reconnect E w))) = ws (bot w).
Proof. rewrite should_reconnect_unfold. eexists. simpl. auto. Qed.

Lemma attempts_step n w :
  snd (attempts E (S n) w) = snd (attempts E n (snd (_should_reconnect E w))).
Proof.
  cbn [attempts]. unfold mbind, M_bind. rewrite should_reconnect_unfold.
  cbn [snd]. destruct (attempts E n _) as [[bs|e] w2]; reflexivity.
Qed.

Lemma attempts_ticks n : forall w,
  (ticks w <= ticks (snd (attempts E n w)))%nat.
Proof.
  induction n as [|n IH]; intros w; [simpl; lia|].
  rewrite attempts_step. etransitivity; [|apply IH].
  rewrite should_reconnect_unfold. simpl.
  pose proof (check_ticks (clock E) (_reconnection_attempts (bot w)) (ticks w)) as Ht.
  fold (check_of E w) in Ht. lia.
Qed.

Lemma attempts_snoc n : forall w,
  snd (attempts E (S n) w) = snd (_should_reconnect E (snd (attempts E n w))).
Proof.
  induction n as [|n IH]; intros w.
  - rewrite attempts_step. reflexivity.
  - rewrite attempts_step, IH, attempts_step. reflexivity.
Qed.

Lemma should_reconnect_in_window T tmax c w :
  (forall i j, (ticks w <= i <= j)%nat -> (j < tmax)%nat ->
               clock E i <= clock E j) ->
  (forall i, (ticks w <= i < tmax)%nat -> clock E i <= T + 10000000) ->
  (ticks (snd (_should_reconnect E w)) <= tmax)%nat ->
  window_holds E T tmax c w ->
  window_holds E T tmax (S c) (snd (_should_reconnect E w))
  /\ ((4 <= c)%nat -> fst (_should_reconnect E w) = Ok false).
Proof.
  rewrite should_reconnect_unfold. cbn [fst snd ticks bot].
  intros Hmono Hwin Hmax (U & HTU & Hlow & Hc).
  pose proof (check_in_window (clock E) T U
                (_reconnection_attempts (bot w)) (ticks w)) as Hstep.
  pose proof (check_ticks (clock E) (_reconnection_attempts (bot w))
                (ticks w)) as Hlt.
  cbv zeta in Hstep. unfold check_of in *.
  set (res := Limiter.check _ _ _) in *. clearbody res.
  destruct Hstep as (Hcount & Hrefuse).
  { intros i j Hij Hj. apply Hmono; lia. }
  { intros i Hi. split; [apply Hlow|apply Hwin]; lia. }
  { exact HTU. }
  split.
  - exists (clock E (ticks w)). split; [|split].
    + specialize (Hlow (ticks w) ltac:(lia)). lia.
    + intros i Hi. simpl in Hi. apply Hmono; lia.
    + simpl. lia.
  - intros H4. rewrite Hrefuse by lia. reflexivity.
Qed.

(** [n] checks in a row inside one window: every one comes back,
    the window holds [n] attempts more, and of the checks at most
    four less [c] are admitted. *)
Lemma attempts_in_window T tmax n : forall w c,
  (forall i j, (ticks w <= i <= j)%nat -> (j < tmax)%nat ->
               clock E i <= clock E j) ->
  (forall i, (ticks w <= i < tmax)%nat -> clock E i <= T + 10000000) ->
  (ticks (snd (attempts E n w)) <= tmax)%nat ->
  window_holds E T tmax c w ->
  window_holds E T tmax (c + n) (snd (attempts E n w))
  /\ exists rs, fst (attempts E n w) = Ok rs /\ length rs = n
                /\ (count_occ Bool.bool_dec rs true <= 4 - c)%nat.
Proof.
  induction n as [|n IH]; intros w c Hmono Hwin Hmax Hinv.
  - split; [now rewrite Nat.add_0_r|]. exists []. simpl. repeat split. lia.
  - rewrite attempts_step in *.
    pose proof (attempts_ticks n (snd (_should_reconnect E w))) as Hticks.
    pose proof (should_reconnect_in_window T tmax c w Hmono Hwin
                  ltac:(lia) Hinv) as [Hinv1 Hrefuse].
    assert (Hlt : (ticks w < ticks (snd (_should_reconnect E w)))%nat).
    { rewrite should_reconnect_unfold. simpl. apply check_ticks. }
    destruct (IH (snd (_should_reconnect E w)) (S c)) as (Hinv2 & rs & Hrs & Hlen & Hadm).
    { intros i j Hij Hj. apply Hmono; lia. }
    { intros i Hi. apply Hwin. lia. }
    { exact Hmax. }
    { exact Hinv1. }
    split; [now replace (c + S n)%nat with (S c + n)%nat by lia|].
    cbn [attempts]. unfold mbind, M_bind.
    destruct (_should_reconnect E w) as [[b|e] w1] eqn:Hw1.
    + simpl in Hrs, Hrefuse. rewrite (surjective_pairing (attempts E n w1)), Hrs.
      exists (b :: rs). simpl. split; [reflexivity|]. split; [now rewrite Hlen|].
      destruct (Bool.bool_dec b true) as [->|Hb]; [|lia].
      destruct (le_lt_dec 4 c) as [H4|H4]; [|lia].
      specialize (Hrefuse H4). discriminate Hrefuse.
    + exfalso. destruct (should_reconnect_total w) as (b & Hb & _).
      rewrite Hw1 in Hb. discriminate Hb.
Qed.

Lemma attempts_unfold n w :
  attempts E (S n) w
    = match attempts E n (snd (_should_reconnect E w)) with
      | (Ok bs, w2) => (Ok (fst (check_of E w) :: bs), w2)
      | (Raise e, w2) => (Raise e, w2)
      end.
Proof.
  cbn [attempts]. unfold mbind, M_bind. rewrite should_reconnect_unfold.
  cbn [snd]. destruct (attempts E n _) as [[bs|e] w2]; reflexivity.
Qed.

(** Checks in a row, each ten seconds or more after the one before
    and all less than a day after the first reading, are all
    admitted. *)
Lemma attempts_spaced a0 n : forall w last,
  recent a0 last (_reconnection_attempts (bot w)) ->
  (forall i j, (ticks w <= i <= j)%nat ->
               (j < ticks (snd (attempts E n w)))%nat ->
               clock E i <= clock E j) ->
  (forall i, (ticks w <= i < ticks (snd (attempts E n w)))%nat ->
             a0 <= clock E i < a0 + 86400000000) ->
  spaced 10000000 (last :: attempt_times E n w) = true ->
  fst (attempts E n w) = Ok (repeat true n).
Proof.
  induction n as [|n IH]; intros w last Hrecent Hmono Hday Hspaced;
    [reflexivity|].
  rewrite attempts_step in Hmono, Hday.
  pose proof (attempts_ticks n (snd (_should_reconnect E w))) as Hticks.
  cbn [attempt_times spaced] in Hspaced.
  apply andb_true_iff in Hspaced as [Hgap Hspaced]. apply Z.leb_le in Hgap.
  pose proof (check_spaced (clock E) a0 last (_reconnection_attempts (bot w))
                (ticks w) Hrecent) as Hstep.
  cbv zeta in Hstep. fold (check_of E w) in Hstep.
  specialize (IH (snd (_should_reconnect E w)) (clock E (ticks w))).
  rewrite attempts_unfold.
  revert Hmono Hday Hticks Hspaced IH. rewrite should_reconnect_unfold.
  cbn [snd bot ticks with_attempts _reconnection_attempts].
  set (w1 := mkWorld _ _ _).
  set (tn := ticks (snd (attempts E n w1))).
  intros Hmono Hday Hticks Hspaced IH.
  destruct Hstep as [Hadmit Hrecent1].
  { intros i j Hij Hj. apply Hmono; lia. }
  { intros i Hi. apply Hday. lia. }
  { exact Hgap. }
  pose proof (check_ticks (clock E) (_reconnection_attempts (bot w)) (ticks w)) as Hlt.
  fold (check_of E w) in Hlt.
  rewrite (surjective_pairing (attempts E n w1)), IH, Hadmit; [reflexivity|..].
  - exact Hrecent1.
  - intros i j Hij Hj. apply Hmono; lia.
  - intros i Hi. apply Hday. lia.
  - exact Hspaced.
Qed.

(** The same for a bot that has made no attempt yet. *)
Lemma spaced_attempts_within_a_day n w :
  _reconnection_attempts (bot w) = [] ->
  (forall i j, (ticks w <= i <= j)%nat ->
               (j < ticks (snd (attempts E n w)))%nat ->
               clock E i <= clock E j) ->
  (forall i, (ticks w <= i < ticks (snd (attempts E n w)))%nat ->
             clock E i < clock E (ticks w) + 86400000000) ->
  spaced 10000000 (attempt_times E n w) = true ->
  fst (attempts E n w) = Ok (repeat true n).
Proof.
  intros Hnil Hmono Hday Hspaced.
  apply (attempts_spaced (clock E (ticks w)) n w (clock E (ticks w) - 10000000)).
  - rewrite Hnil. split; [constructor|now left].
  - exact Hmono.
  - intros i Hi. split; [apply Hmono; lia|now apply Hday].
  - destruct n as [|n]; [reflexivity|].
    cbn [attempt_times spaced] in *. apply andb_true_iff. split; [|exact Hspaced].
    apply Z.leb_le. lia.
Qed.

End Admission.

(** At least five admission checks made one after the other, then
    one more, all their clock readings going forward and lying within
    ten seconds of the first: the last check returns false, [connect]
    entered at it logs and returns at once, and of all these checks at
    most four have been admitted. *)
Lemma sixth_check_in_window (E : Env) (w0 : world) (n fuel : nat) :
  (5 <= n)%nat ->
  let w5 := snd (attempts E n w0) in
  let w6 := snd (_should_reconnect E w5) in
  (forall i j, (ticks w0 <= i <= j)%nat -> (j < ticks w6)%nat ->
               clock E i <= clock E j) ->
  (forall i, (ticks w0 <= i < ticks w6)%nat ->
             clock E i <= clock E (ticks w0) + 10000000) ->
  fst (_should_reconnect E w5) = Ok false
  /\ connect E (S fuel) w5
     = Some (Ok tt, mkWorld (bot w6) (trace w5 ++ [Log InfoExceeded]) (ticks w6))
  /\ exists rs, fst (attempts E (S n) w0) = Ok rs /\ length rs = S n
                /\ (count_occ Bool.bool_dec rs true <= 4)%nat.
Proof.
  intros Hn w5 w6 Hmono Hwin.
  assert (Hstart : window_holds E (clock E (ticks w0)) (ticks w6) 0 w0).
  { exists (clock E (ticks w0)). split; [lia|]. split; [|lia].
    intros i Hi. apply Hmono; lia. }
  assert (Hlt : (ticks w5 < ticks w6)%nat).
  { subst w6. rewrite should_reconnect_unfold. simpl. apply check_ticks. }
  destruct (attempts_in_window E (clock E (ticks w0)) (ticks w6) n w0 0)
    as (Hinv & _); [assumption|assumption|fold w5; lia|assumption|].
  fold w5 in Hinv. simpl in Hinv.
  pose proof (attempts_ticks E n w0) as Hticks. fold w5 in Hticks.
  destruct (should_reconnect_in_window E (clock E (ticks w0)) (ticks w6) n w5)
    as (_ & Hrefuse); [| |apply Nat.le_refl|assumption|].
  { intros i j Hij Hj. apply Hmono; lia. }
  { intros i Hi. apply Hwin. lia. }
  specialize (Hrefuse ltac:(lia)).
  split; [exact Hrefuse|]. split.
  - cbn [connect]. subst w6.
    destruct (_should_reconnect E w5) as [r w'] eqn:Hw. simpl in Hrefuse.
    subst r. simpl.
    destruct (should_reconnect_total E w5) as (b & _ & Htr & _).
    rewrite Hw in Htr. simpl in Htr. unfold log, record. now rewrite Htr.
  - destruct (attempts_in_window E (clock E (ticks w0)) (ticks w6) (S n) w0 0)
      as (_ & rs & Hrs & Hlen & Hadm); [assumption|assumption| |assumption|].
    + rewrite attempts_snoc. apply Nat.le_refl.
    + exists rs. repeat split; [assumption..|lia].
Qed.

(** The run loop itself, with a transport that refuses every
    connection and a clock that moves a millisecond per reading: four
    attempts are made, the fifth admission check fails, and [connect]
    returns. *)
Example connect_gives_up :
  exists w, connect Demo.env 5 Demo.start = Some (Ok tt, w)
    /\ trace w =
       [ WsConnect (uri Demo.pica); Log (ErrorFailedToConnect (OtherException 0));
         Log InfoReconnecting; Sleep 1;
         WsConnect (uri Demo.pica); Log (ErrorFailedToConnect (OtherException 0));
         Log InfoReconnecting; Sleep 1;
         WsConnect (uri Demo.pica); Log (ErrorFailedToConnect (OtherException 0));
         Log InfoReconnecting; Sleep 1;
         WsConnect (uri Demo.pica); Log (ErrorFailedToConnect (OtherException 0));
         Log InfoReconnecting; Sleep 1;
         Log InfoExceeded ].
Proof. eexists. split; vm_compute; reflexivity. Qed.

(** C2 fails on the code.  Five attempts, each made one day after the
    one before (so far more than ten seconds apart, on a clock that
    only moves forward): the seconds field of every age is below ten,
    nothing is ever pruned, and the fifth check returns false.  As
    long as all readings stay within a day of the first the checks are
    all admitted ([spaced_attempts_within_a_day]); it is the seconds
    field starting again at zero after a day that makes the old
    attempts look young. *)
Theorem C2_daily_attempts_refused :
  fst (attempts Demo.daily_env 5 Demo.start) = Ok [true; true; true; true; false]
  /\ _reconnection_attempts (bot (snd (attempts Demo.daily_env 5 Demo.start)))
     = [0; 86400000002; 172800000005; 259200000009; 345600000014]
  /\ spaced 10000000 [0; 86400000002; 172800000005; 259200000009; 345600000014]
     = true
  /\ ticks (snd (attempts Demo.daily_env 5 Demo.start)) = 20%nat
  /\ forallb (fun i => Demo.daily_clock i <? Demo.daily_clock (S i)) (seq 0 20)
     = true.
Proof. repeat split; vm_compute; reflexivity. Qed.

(* ===================================================================== *)
(** * Routing of decoded frames *)
(* ===================================================================== *)

Section Routing.

Context (E : Env).

Lemma gather_cons_snd (t : M unit) ts w :
  snd (gather (t :: ts) w) = snd (gather ts (snd (t w))).
Proof. simpl. destruct (t w) as [r w1]. simpl. now destruct (gather ts w1). Qed.

Lemma call_snd f args w :
  snd (call E f args w)
    = mkWorld (snd (run_callable E f args (bot w)))
              (trace w ++ [Invoke f args]) (ticks w).
Proof.
  unfold call. destruct (run_callable E f args (bot w)) as [[e|] b]; reflexivity.
Qed.

(** What [gather] leaves in the trace: one call per listener, in the
    order of registration. *)
Lemma gather_calls_trace args : forall fs w,
  trace (snd (gather (map (fun f => call E f args) fs) w))
    = trace w ++ map (fun f => Invoke f args) fs
  /\ ticks (snd (gather (map (fun f => call E f args) fs) w)) = ticks w.
Proof.
  induction fs as [|f fs IH]; intros w.
  - simpl. now rewrite app_nil_r.
  - cbn [map]. rewrite gather_cons_snd, call_snd.
    destruct (IH (mkWorld (snd (run_callable E f args (bot w)))
                          (trace w ++ [Invoke f args]) (ticks w))) as [Htr Htk].
    rewrite Htr, Htk. simpl. now rewrite <- app_assoc.
Qed.

Lemma emit_trace event args w :
  trace (snd (emit E event args w))
    = trace w ++ Emit event args
        :: map (fun f => Invoke f args) (default [] (_listeners (bot w) !! event)).
Proof.
  unfold emit. run_M.
  destruct (_listeners (bot w) !! event) as [fs|]; simpl.
  - match goal with |- context [gather ?ts ?w1] =>
      destruct (gather_calls_trace args fs w1) as [Htr _] end.
    destruct (gather _ _) as [[[]|e] w2]; simpl in *;
      rewrite Htr, <- app_assoc; reflexivity.
  - reflexivity.
Qed.

(** A sub-record sent by the bot itself leaves the world as it is. *)
Lemma route_own fields w :
  fields !! py "n" = Some (JStr (bot_name (bot w))) ->
  snd (route E (JDict fields) w) = w
  /\ (is_Some (fields !! py "m") -> route E (JDict fields) w = (Ok tt, w)).
Proof.
  intros Hn. unfold route, Envelope.user_name, Envelope.message, getitem.
  run_M. rewrite Hn.
  destruct (fields !! py "m") as [body|]; simpl.
  - rewrite bool_decide_eq_true_2 by reflexivity. split; [reflexivity|].
    intros _. destruct w; reflexivity.
  - split; [destruct w; reflexivity|]. intros [? ?]. discriminate.
Qed.

(** The three ways a sub-record of somebody else is routed. *)
Lemma route_command fields who body name args handler w :
  fields !! py "n" = Some who ->
  eq_str who (bot_name (bot w)) = false ->
  fields !! py "m" = Some (JStr body) ->
  startswith body (prefix (bot w)) = true ->
  _split_message (slice_from (length (prefix (bot w))) body) = name :: args ->
  _commands (bot w) !! name = Some handler ->
  route E (JDict fields) w
    = call E handler (VMsg (mkPicaMessage (JDict fields)) :: map VStr args) w.
Proof.
  intros Hn Hwho Hm Hsw Htok Hcmd.
  unfold route, Envelope.user_name, Envelope.message, getitem.
  run_M. rewrite Hn, Hm. cbn [fst snd]. rewrite Hwho, Hsw, Htok. cbn.
  rewrite Hcmd. destruct w; reflexivity.
Qed.

Lemma route_message fields who body w :
  fields !! py "n" = Some who ->
  eq_str who (bot_name (bot w)) = false ->
  fields !! py "m" = Some (JStr body) ->
  (startswith body (prefix (bot w)) = false
   \/ exists name args,
        _split_message (slice_from (length (prefix (bot w))) body) = name :: args
        /\ _commands (bot w) !! name = None) ->
  route E (JDict fields) w
    = emit E (py "message") [VMsg (mkPicaMessage (JDict fields))] w.
Proof.
  intros Hn Hwho Hm Hcase.
  unfold route, Envelope.user_name, Envelope.message, getitem.
  run_M. rewrite Hn, Hm. cbn [fst snd]. rewrite Hwho.
  destruct Hcase as [Hsw|(name & args & Htok & Hcmd)].
  - rewrite Hsw. destruct w; reflexivity.
  - destruct (startswith body (prefix (bot w))); [|destruct w; reflexivity].
    rewrite Htok. cbn. rewrite Hcmd. destruct w; reflexivity.
Qed.

Lemma route_bare_prefix fields who body w :
  fields !! py "n" = Some who ->
  eq_str who (bot_name (bot w)) = false ->
  fields !! py "m" = Some (JStr body) ->
  startswith body (prefix (bot w)) = true ->
  _split_message (slice_from (length (prefix (bot w))) body) = [] ->
  route E (JDict fields) w = (Raise ValueError, w).
Proof.
  intros Hn Hwho Hm Hsw Htok.
  unfold route, Envelope.user_name, Envelope.message, getitem.
  run_M. rewrite Hn, Hm. cbn [fst snd]. rewrite Hwho, Hsw, Htok.
  destruct w; reflexivity.
Qed.

End Routing.

Section Frames.

Context (E : Env).

Lemma startswith_app p s : startswith (p ++ s) p = true.
Proof.
  induction p as [|a p IH]; simpl; [reflexivity|].
  destruct (decide (a = a)); [exact IH|congruence].
Qed.

Lemma findall_spaces n : forall s,
  Forall (fun c => is_space c = true) s -> findall_from n s = [].
Proof.
  induction n as [|n IH]; intros s Hs; [reflexivity|].
  destruct Hs as [|c s Hc Hs]; [reflexivity|].
  cbn [findall_from]. unfold match_here. simpl.
  destruct (decide (c = DQ)) as [->|_]; [discriminate Hc|].
  rewrite Hc. now apply IH.
Qed.

Lemma split_spaces s :
  Forall (fun c => is_space c = true) s -> _split_message s = [].
Proof.
  intros Hs. unfold _split_message, findall. now rewrite findall_spaces.
Qed.

(** A frame that decodes to a chat batch: the raw event first, then
    the sub-records one by one. *)
Lemma on_message_batch msg top parts w :
  msg <> [] ->
  json_loads E msg = Ok (JDict top) ->
  top !! py "t" = Some (JStr (py "c")) ->
  top !! py "m" = Some (JList parts) ->
  _on_message E msg w
    = match emit E (py "raw") [VJson (JDict top)] w with
      | (Ok _, w1) => for_each (route E) parts w1
      | (Raise e, w1) => (Raise e, w1)
      end.
Proof.
  intros Hne Hload Ht Hm. unfold _on_message.
  destruct msg as [|c msg]; [congruence|]. cbn [truthy negb].
  rewrite Hload. unfold get, getitem, iterate, eq_str. run_M.
  destruct (emit E (py "raw") [VJson (JDict top)] w) as [[[]|e] w1];
    [|reflexivity].
  rewrite Ht, Hm. reflexivity.
Qed.

End Frames.

(** C3 fails on the code.  The bot [pica] has the prefix [!] and the
    command [greet]; alice sends the body [!].  The body starts with
    the prefix and no token follows, so unpacking the empty token list
    raises [ValueError]: after the raw event nothing else happens, and
    in particular no "message" event is emitted for the envelope. *)
Theorem C3_bare_prefix_raises :
  let part := Demo.envelope (py "alice") (py "!") in
  let res := _on_message Demo.env (Demo.frame "alice" "!") Demo.start in
  fst res = Raise ValueError
  /\ trace (snd res)
     = [ Emit (py "raw") [VJson (Demo.batch [part])];
         Invoke Demo.on_raw [VJson (Demo.batch [part])] ].
Proof. split; vm_compute; reflexivity. Qed.

(** The two examples of the specification for the routing rule. *)
Example greet_is_dispatched :
  let part := Demo.envelope (py "alice") (py "!greet Alice") in
  let res := _on_message Demo.env (Demo.frame "alice" "!greet Alice") Demo.start in
  fst res = Ok tt
  /\ trace (snd res)
     = [ Emit (py "raw") [VJson (Demo.batch [part])];
         Invoke Demo.on_raw [VJson (Demo.batch [part])];
         Invoke Demo.greet [VMsg (mkPicaMessage part); VStr (py "Alice")] ].
Proof. split; vm_compute; reflexivity. Qed.

Example unknown_is_a_message :
  let part := Demo.envelope (py "alice") (py "!unknown x") in
  let res := _on_message Demo.env (Demo.frame "alice" "!unknown x") Demo.start in
  fst res = Ok tt
  /\ trace (snd res)
     = [ Emit (py "raw") [VJson (Demo.batch [part])];
         Invoke Demo.on_raw [VJson (Demo.batch [part])];
         Emit (py "message") [VMsg (mkPicaMessage part)];
         Invoke Demo.on_message [VMsg (mkPicaMessage part)] ].
Proof. split; vm_compute; reflexivity. Qed.

(** C4.  A frame that decodes to a chat batch with one sub-record
    whose user name is the bot's own: all that [_on_message] does is
    emit the raw event, so the trace gains the [Emit] of "raw" and the
    calls of the raw listeners and nothing more (no "message" event,
    no command handler).  Wherever such a sub-record stands in a
    batch, routing it leaves the world unchanged. *)
Theorem C4_own_messages_dropped (E : Env) (w : world) (msg : pystr)
    (top fields : gmap pystr json) :
  msg <> [] ->
  json_loads E msg = Ok (JDict top) ->
  top !! py "t" = Some (JStr (py "c")) ->
  top !! py "m" = Some (JList [JDict fields]) ->
  fields !! py "n"
    = Some (JStr (bot_name (bot (snd (emit E (py "raw") [VJson (JDict top)] w))))) ->
  is_Some (fields !! py "m") ->
  _on_message E msg w = emit E (py "raw") [VJson (JDict top)] w
  /\ trace (snd (_on_message E msg w))
     = trace w ++ Emit (py "raw") [VJson (JDict top)]
         :: map (fun f => Invoke f [VJson (JDict top)])
                (default [] (_listeners (bot w) !! py "raw"))
  /\ forall w', fields !! py "n" = Some (JStr (bot_name (bot w'))) ->
                route E (JDict fields) w' = (Ok tt, w').
Proof.
  intros Hne Hload Ht Hm Hn Hbody.
  assert (Hon : _on_message E msg w = emit E (py "raw") [VJson (JDict top)] w).
  { rewrite (on_message_batch E msg top [JDict fields] w) by assumption.
    destruct (emit E (py "raw") [VJson (JDict top)] w) as [[[]|e] w1] eqn:Hraw;
      [|reflexivity].
    simpl in Hn. cbn [for_each]. run_M.
    destruct (route_own E fields w1 Hn) as [_ Hr]. now rewrite (Hr Hbody). }
  split; [exact Hon|]. split.
  - rewrite Hon. apply emit_trace.
  - intros w' Hn'. now apply route_own.
Qed.

Lemma C4_own_messages_dropped_witness :
  _on_message Demo.env (Demo.frame "pica" "!greet me") Demo.start
    = emit Demo.env (py "raw")
        [VJson (Demo.batch [Demo.envelope (py "pica") (py "!greet me")])] Demo.start
  /\ trace (snd (_on_message Demo.env (Demo.frame "pica" "!greet me") Demo.start))
     = [ Emit (py "raw")
           [VJson (Demo.batch [Demo.envelope (py "pica") (py "!greet me")])];
         Invoke Demo.on_raw
           [VJson (Demo.batch [Demo.envelope (py "pica") (py "!greet me")])] ].
Proof.
  destruct (C4_own_messages_dropped Demo.env Demo.start (Demo.frame "pica" "!greet me")
              (<[py "t" := JStr (py "c")]>
                 (<[py "m" := JList [Demo.envelope (py "pica") (py "!greet me")]]> ∅))
              (<[py "n" := JStr (py "pica")]>
                 (<[py "m" := JStr (py "!greet me")]> ∅)))
    as (H1 & H2 & _).
  - vm_compute; discriminate.
  - vm_compute; reflexivity.
  - vm_compute; reflexivity.
  - vm_compute; reflexivity.
  - vm_compute; reflexivity.
  - eexists; vm_compute; reflexivity.
  - split; [exact H1|]. rewrite H2. vm_compute. reflexivity.
Defined.

(** C6.  An empty frame changes nothing and raises nothing, and the
    read loop goes on with the next frame.  A non-empty frame on which
    [json.loads] raises [JSONDecodeError] adds one error record to the
    log and nothing else: [_on_message] returns normally, no event is
    emitted, the connection handle is untouched and nothing is closed,
    and the read loop handles the frame that follows in the world so
    logged. *)
Theorem C6_bad_frames_dropped (E : Env) (w : world) (msg next : pystr)
    (rest : list pystr) (ending : option exn) :
  msg <> [] ->
  json_loads E msg = Raise JSONDecodeError ->
  let logged :=
    mkWorld (bot w) (trace w ++ [Log (ErrorFailedToParse msg)]) (ticks w) in
  _on_message E [] w = (Ok tt, w)
  /\ listen_loop E ([] :: next :: rest) ending w
     = listen_loop E (next :: rest) ending w
  /\ _on_message E msg w = (Ok tt, logged)
  /\ listen_loop E (msg :: next :: rest) ending w
     = listen_loop E (next :: rest) ending logged
  /\ listen_loop E (next :: rest) ending logged
     = match _on_message E next logged with
       | (Ok _, w') => listen_loop E rest ending w'
       | (Raise e, w') => (Raise e, w')
       end.
Proof.
  intros Hne Hload logged.
  assert (Hbad : _on_message E msg w = (Ok tt, logged)).
  { unfold _on_message. destruct msg as [|c msg]; [congruence|].
    cbn [truthy negb]. rewrite Hload. reflexivity. }
  split; [reflexivity|]. split; [|split; [|split]].
  - cbn [listen_loop]. run_M. reflexivity.
  - exact Hbad.
  - change (listen_loop E (msg :: next :: rest) ending w)
      with (mbind (M := M) (fun _ => listen_loop E (next :: rest) ending)
                  (_on_message E msg) w).
    unfold mbind at 1, M_bind at 1. now rewrite Hbad.
  - cbn [listen_loop]. run_M. destruct (_on_message E next logged) as [[[]|e] w'];
      reflexivity.
Qed.

Lemma C6_bad_frames_dropped_witness :
  _on_message Demo.env (py "not json") Demo.start
    = (Ok tt, mkWorld Demo.pica [Log (ErrorFailedToParse (py "not json"))] 0)
  /\ listen_loop Demo.env [py "not json"; Demo.frame "alice" "hello"] None Demo.start
     = listen_loop Demo.env [Demo.frame "alice" "hello"] None
         (mkWorld Demo.pica [Log (ErrorFailedToParse (py "not json"))] 0).
Proof.
  destruct (C6_bad_frames_dropped Demo.env Demo.start (py "not json")
              (Demo.frame "alice" "hello") [] None)
    as (_ & _ & H3 & H4 & _).
  - vm_compute; discriminate.
  - vm_compute; reflexivity.
  - split; [exact H3|exact H4].
Defined.

(** After the bad frame the good one is dispatched as usual. *)
Example listen_goes_on :
  trace (snd (listen_loop Demo.env [py "not json"; Demo.frame "alice" "hello"]
                None Demo.start))
  = let part := Demo.envelope (py "alice") (py "hello") in
    [ Log (ErrorFailedToParse (py "not json"));
      Emit (py "raw") [VJson (Demo.batch [part])];
      Invoke Demo.on_raw [VJson (Demo.batch [part])];
      Emit (py "message") [VMsg (mkPicaMessage part)];
      Invoke Demo.on_message [VMsg (mkPicaMessage part)] ].
Proof. vm_compute. reflexivity. Qed.

(** C7.  Without a connection handle [send] raises the
    [ConnectionError] of its guard to the caller and leaves the world,
    the trace of transport actions included, exactly as it was; so do
    the two operations built on it. *)
Theorem C7_send_while_disconnected (E : Env) (w : world) (payload : json)
    (text message_id channel_id : pystr) :
  ws (bot w) = None ->
  send E payload w = (Raise NotConnected, w)
  /\ sent_message E text w = (Raise NotConnected, w)
  /\ delete_message E message_id channel_id w = (Raise NotConnected, w).
Proof.
  intros Hws. unfold sent_message, delete_message, send. run_M.
  rewrite Hws. destruct w. split; [|split]; reflexivity.
Qed.

Lemma C7_send_while_disconnected_witness :
  send Demo.env (JDict ∅) Demo.start = (Raise NotConnected, Demo.start)
  /\ sent_message Demo.env (py "hi") Demo.start = (Raise NotConnected, Demo.start)
  /\ delete_message Demo.env (py "42") (py "7") Demo.start
     = (Raise NotConnected, Demo.start).
Proof.
  apply (C7_send_while_disconnected Demo.env Demo.start (JDict ∅)
           (py "hi") (py "42") (py "7")).
  reflexivity.
Defined.

(** C9.  [close] closes the transport and keeps the handle: the bot
    is the same afterwards, [connected] still answers true, and a
    [send] that follows gets past the guard and hands the text to the
    closed transport, its outcome being whatever the transport
    answers. *)
Theorem C9_close_keeps_handle (E : Env) (w : world) (h : handle)
    (payload : json) (text : pystr) :
  ws (bot w) = Some h ->
  json_dumps E payload = Ok text ->
  let w' := snd (close E w) in
  bot w' = bot w
  /\ ws (bot w') = Some h
  /\ connected (bot w') = true
  /\ trace w' = trace w ++ [WsClose h]
  /\ send E payload w'
     = (match ws_send E h text (trace w' ++ [WsSend h text]) with
        | None => Ok tt
        | Some e => Raise e
        end,
        mkWorld (bot w') (trace w' ++ [WsSend h text]) (ticks w')).
Proof.
  intros Hws Hdumps w'.
  assert (Hw' : w' = mkWorld (bot w) (trace w ++ [WsClose h]) (ticks w)).
  { subst w'. unfold close. run_M. rewrite Hws. simpl.
    destruct (ws_close E h (trace w ++ [WsClose h])); reflexivity. }
  rewrite Hw'. simpl. unfold connected. rewrite Hws.
  do 4 (split; [reflexivity|]). unfold send. run_M. rewrite Hws, Hdumps. simpl.
  destruct (ws_send E h text _); reflexivity.
Qed.

Lemma C9_close_keeps_handle_witness :
  let w := mkWorld (with_ws (Some 7%nat) Demo.pica) [] 0 in
  connected (bot (snd (close Demo.env w))) = true
  /\ send Demo.env (JDict ∅) (snd (close Demo.env w))
     = (Ok tt, mkWorld (with_ws (Some 7%nat) Demo.pica)
                       [WsClose 7%nat; WsSend 7%nat (py "{}")] 0).
Proof.
  destruct (C9_close_keeps_handle Demo.env
              (mkWorld (with_ws (Some 7%nat) Demo.pica) [] 0) 7%nat
              (JDict ∅) (py "{}"))
    as (_ & _ & H3 & _ & H5).
  - reflexivity.
  - reflexivity.
  - split; [exact H3|exact H5].
Defined.

(** C8, as the specification words it, fails on the code.  The
    sub-record of the frame below has a user name and a body and none
    of the other eight fields; reading its channel id raises.  Yet it
    is wrapped and handed to the "message" listeners without any
    error.  So it is not true that a sub-record lacking one of the ten
    fields always makes its conversion or routing fail. *)
Lemma C8_counterexample :
  let part := Demo.envelope (py "alice") (py "hello") in
  Envelope.channel_id (mkPicaMessage part) = Raise (KeyError (py "c"))
  /\ fst (_on_message Demo.env (Demo.frame "alice" "hello") Demo.start) = Ok tt
  /\ trace (snd (_on_message Demo.env (Demo.frame "alice" "hello") Demo.start))
     = [ Emit (py "raw") [VJson (Demo.batch [part])];
         Invoke Demo.on_raw [VJson (Demo.batch [part])];
         Emit (py "message") [VMsg (mkPicaMessage part)];
         Invoke Demo.on_message [VMsg (mkPicaMessage part)] ]
  /\ ~ (forall (E : Env) (w : world) (fields : gmap pystr json) key,
          In key (map fst (Envelope.accessors (py_int E))) ->
          fields !! key = None ->
          exists e, fst (route E (JDict fields) w) = Raise e).
Proof.
  split; [vm_compute; reflexivity|].
  split; [vm_compute; reflexivity|].
  split; [vm_compute; reflexivity|].
  intros H.
  destruct (H Demo.env Demo.start
              (<[py "n" := JStr (py "alice")]> (<[py "m" := JStr (py "hello")]> ∅))
              (py "c")) as [e He].
  - simpl. auto.
  - vm_compute. reflexivity.
  - vm_compute in He. discriminate He.
Qed.

(** C8, amended.  Wrapping a sub-record into a [PicaMessage] checks
    nothing.  Each of the ten accessors raises [KeyError] with its key
    when the sub-record lacks the field; it never answers with a null
    for an absent field.  Routing reads the user name and the body
    only: a sub-record without a user name raises [KeyError] there,
    one with a user name and without a body as well, both before
    anything is dispatched; and a sub-record that has the two is
    routed by them alone, whatever other fields it has or lacks: it is
    dropped when the name is the bot's own, handed whole to the
    command handler or to the "message" listeners according to the
    body, and the only errors routing itself raises then are the
    [AttributeError] of a body that is no string and the [ValueError]
    of a body without token after the prefix. *)
Theorem C8_fields_checked_on_read (E : Env) (w : world) (fields : gmap pystr json) :
  (forall key acc,
     In (key, acc) (Envelope.accessors (py_int E)) ->
     fields !! key = None ->
     acc (mkPicaMessage (JDict fields)) = Raise (KeyError key))
  /\ (fields !! py "n" = None ->
      route E (JDict fields) w = (Raise (KeyError (py "n")), w))
  /\ (is_Some (fields !! py "n") -> fields !! py "m" = None ->
      route E (JDict fields) w = (Raise (KeyError (py "m")), w))
  /\ (forall who body,
        fields !! py "n" = Some who ->
        fields !! py "m" = Some body ->
        route E (JDict fields) w
          = let envelope := mkPicaMessage (JDict fields) in
            if eq_str who (bot_name (bot w)) then (Ok tt, w)
            else
              match body with
              | JStr text =>
                  if startswith text (prefix (bot w)) then
                    match _split_message
                            (slice_from (length (prefix (bot w))) text) with
                    | [] => (Raise ValueError, w)
                    | command_name :: args =>
                        match _commands (bot w) !! command_name with
                        | Some handler =>
                            call E handler (VMsg envelope :: map VStr args) w
                        | None => emit E (py "message") [VMsg envelope] w
                        end
                    end
                  else emit E (py "message") [VMsg envelope] w
              | _ => (Raise AttributeError, w)
              end).
Proof.
  split; [|split; [|split]].
  - intros key acc Hin Hnone. simpl in Hin.
    repeat (destruct Hin as [Hin|Hin];
            [injection Hin as <- <-;
             unfold Envelope.channel_id, Envelope.channel_name,
               Envelope.channel_color, Envelope.message_timestamp,
               Envelope.message_id, Envelope.message, Envelope.user_id,
               Envelope.user_name, Envelope.user_color,
               Envelope.user_profile_pic, getitem;
             cbn [data]; now rewrite Hnone|]).
    destruct Hin.
  - intros Hn. unfold route, Envelope.user_name, getitem. run_M.
    rewrite Hn. destruct w; reflexivity.
  - intros [who Hn] Hm.
    unfold route, Envelope.user_name, Envelope.message, getitem. run_M.
    rewrite Hn, Hm. destruct w; reflexivity.
  - intros who body Hn Hm. cbv zeta.
    unfold route, Envelope.user_name, Envelope.message, getitem. run_M.
    rewrite Hn, Hm. cbn [fst snd].
    destruct (eq_str who (bot_name (bot w))); [destruct w; reflexivity|].
    destruct body; try (destruct w; reflexivity).
    destruct (startswith s (prefix (bot w))); [|destruct w; reflexivity].
    destruct (_split_message _) as [|command_name args];
      [destruct w; reflexivity|].
    cbn. destruct (_commands (bot w) !! command_name); destruct w; reflexivity.
Qed.

Lemma C8_fields_checked_on_read_witness :
  let part := Demo.envelope (py "alice") (py "hello") in
  let order := Demo.envelope (py "alice") (py "!greet Alice") in
  Envelope.channel_id (mkPicaMessage part) = Raise (KeyError (py "c"))
  /\ route Demo.env (JDict ∅) Demo.start = (Raise (KeyError (py "n")), Demo.start)
  /\ route Demo.env part Demo.start
     = emit Demo.env (py "message") [VMsg (mkPicaMessage part)] Demo.start
  /\ route Demo.env order Demo.start
     = call Demo.env Demo.greet [VMsg (mkPicaMessage order); VStr (py "Alice")]
         Demo.start.
Proof.
  split; [|split; [|split]].
  - destruct (C8_fields_checked_on_read Demo.env Demo.start
                (<[py "n" := JStr (py "alice")]>
                   (<[py "m" := JStr (py "hello")]> ∅))) as (H1 & _).
    apply (H1 (py "c") Envelope.channel_id); [simpl; auto|vm_compute; reflexivity].
  - destruct (C8_fields_checked_on_read Demo.env Demo.start ∅) as (_ & H2 & _).
    apply H2. vm_compute; reflexivity.
  - destruct (C8_fields_checked_on_read Demo.env Demo.start
                (<[py "n" := JStr (py "alice")]>
                   (<[py "m" := JStr (py "hello")]> ∅))) as (_ & _ & _ & H4).
    etransitivity;
      [apply (H4 (JStr (py "alice")) (JStr (py "hello"))); vm_compute; reflexivity|].
    vm_compute. reflexivity.
  - destruct (C8_fields_checked_on_read Demo.env Demo.start
                (<[py "n" := JStr (py "alice")]>
                   (<[py "m" := JStr (py "!greet Alice")]> ∅)))
      as (_ & _ & _ & H4).
    etransitivity;
      [apply (H4 (JStr (py "alice")) (JStr (py "!greet Alice")));
       vm_compute; reflexivity|].
    vm_compute. reflexivity.
Defined.

(** C10.  A connection delivers a frame that decodes to a chat batch;
    its first sub-record comes from somebody else and its body is the
    command prefix followed by nothing but whitespace.  The tokenizer
    gives no token for what follows the prefix, the unpacking raises
    [ValueError], and [_on_message] ends with it right after the raw
    event: the other sub-records of the batch are never routed.
    [_listen] catches the exception, logs it and returns, so the frames
    still to come on this connection are never read. *)
Theorem C10_bare_prefix_ends_listening (E : Env) (w : world) (h : handle)
    (msg : pystr) (frames : list pystr) (ending : option exn)
    (top fields : gmap pystr json) (who : json) (spaces : pystr)
    (more : list json) :
  ws (bot w) = Some h ->
  ws_frames E h = (msg :: frames, ending) ->
  msg <> [] ->
  json_loads E msg = Ok (JDict top) ->
  top !! py "t" = Some (JStr (py "c")) ->
  top !! py "m" = Some (JList (JDict fields :: more)) ->
  let raw := emit E (py "raw") [VJson (JDict top)] w in
  fst raw = Ok tt ->
  fields !! py "n" = Some who ->
  eq_str who (bot_name (bot (snd raw))) = false ->
  fields !! py "m" = Some (JStr (prefix (bot (snd raw)) ++ spaces)) ->
  Forall (fun c => is_space c = true) spaces ->
  _split_message spaces = []
  /\ route E (JDict fields) (snd raw) = (Raise ValueError, snd raw)
  /\ _on_message E msg w = (Raise ValueError, snd raw)
  /\ _listen E w
     = (Ok tt, mkWorld (bot (snd raw))
                       (trace (snd raw) ++ [Log (ErrorError ValueError)])
                       (ticks (snd raw))).
Proof.
  intros Hws Hframes Hne Hload Ht Hm raw Hraw Hn Hwho Hbody Hspaces.
  assert (Htok : _split_message spaces = []) by now apply split_spaces.
  assert (Hroute : route E (JDict fields) (snd raw) = (Raise ValueError, snd raw)).
  { apply (route_bare_prefix E fields who _ _ Hn Hwho Hbody).
    - apply startswith_app.
    - unfold slice_from. now rewrite drop_app_length. }
  assert (Hon : _on_message E msg w = (Raise ValueError, snd raw)).
  { rewrite (on_message_batch E msg top (JDict fields :: more) w) by assumption.
    fold raw. destruct raw as [[[]|e] w1]; [|discriminate Hraw].
    cbn [for_each]. run_M. simpl in Hroute. now rewrite Hroute. }
  split; [exact Htok|]. split; [exact Hroute|]. split; [exact Hon|].
  unfold _listen, read_frames. run_M. rewrite Hws, Hframes. cbn [fst snd].
  cbn [listen_loop]. run_M. rewrite Hon.
  destruct (decide (ValueError = ConnectionClosed)); [discriminate|].
  reflexivity.
Qed.

Lemma C10_bare_prefix_ends_listening_witness :
  let E := {| clock := clock Demo.env; json_loads := json_loads Demo.env;
              json_dumps := json_dumps Demo.env; py_int := py_int Demo.env;
              run_callable := run_callable Demo.env;
              ws_connect := fun _ _ => Ok 7%nat;
              ws_frames := fun _ => ([Demo.frame_of_two "alice" "! " "bob" "hello";
                                      Demo.frame "alice" "hello"], None);
              ws_send := ws_send Demo.env; ws_close := ws_close Demo.env |} in
  let w := mkWorld (with_ws (Some 7%nat) Demo.pica) [] 0 in
  let decoded := Demo.batch [Demo.envelope (py "alice") (py "! ");
                             Demo.envelope (py "bob") (py "hello")] in
  _on_message E (Demo.frame_of_two "alice" "! " "bob" "hello") w
    = (Raise ValueError,
       mkWorld (with_ws (Some 7%nat) Demo.pica)
         [Emit (py "raw") [VJson decoded]; Invoke Demo.on_raw [VJson decoded]] 0)
  /\ _listen E w
     = (Ok tt,
        mkWorld (with_ws (Some 7%nat) Demo.pica)
          [Emit (py "raw") [VJson decoded]; Invoke Demo.on_raw [VJson decoded];
           Log (ErrorError ValueError)] 0).
Proof.
  intros E w decoded.
  destruct (C10_bare_prefix_ends_listening E w 7%nat
              (Demo.frame_of_two "alice" "! " "bob" "hello")
              [Demo.frame "alice" "hello"] None
              (<[py "t" := JStr (py "c")]>
                 (<[py "m" := JList [Demo.envelope (py "alice") (py "! ");
                                     Demo.envelope (py "bob") (py "hello")]]> ∅))
              (<[py "n" := JStr (py "alice")]> (<[py "m" := JStr (py "! ")]> ∅))
              (JStr (py "alice")) (py " ")
              [Demo.envelope (py "bob") (py "hello")])
    as (_ & _ & H3 & H4).
  - reflexivity.
  - reflexivity.
  - vm_compute; discriminate.
  - vm_compute; reflexivity.
  - vm_compute; reflexivity.
  - vm_compute; reflexivity.
  - vm_compute; reflexivity.
  - vm_compute; reflexivity.
  - vm_compute; reflexivity.
  - vm_compute; reflexivity.
  - repeat constructor.
  - split; [rewrite H3|rewrite H4]; vm_compute; reflexivity.
Defined.

(* ===================================================================== *)
(** * More on the limiter: what the prune loop can and cannot remove *)
(* ===================================================================== *)

Section PruneBounds.

Import Limiter.

Variable clk : nat -> Z.

Lemma length_remove_first_in a : forall l i,
  l !! i = Some a -> S (length (remove_first a l)) = length l.
Proof.
  induction l as [|y l IH]; intros i Hi; [discriminate|].
  simpl. destruct (decide (a = y)) as [->|Hne]; [reflexivity|].
  destruct i as [|i]; simpl in Hi; [congruence|].
  simpl. f_equal. now apply (IH i).
Qed.

Lemma prune_from_shrinks fuel : forall i l t,
  (length (fst (prune_from clk fuel i l t)) <= length l)%nat.
Proof.
  induction fuel as [|fuel IH]; intros i l t; simpl; [lia|].
  destruct (l !! i) as [a|]; simpl; [|lia].
  destruct (10 <? timedelta_seconds (clk t - a)); [|apply IH].
  etransitivity; [apply IH|apply length_remove_first].
Qed.

(** Removing an item makes the loop step over its neighbour, so of
    the items from the index on at most every other one goes. *)
Lemma prune_from_half fuel : forall i l t,
  (i <= length l + 1)%nat ->
  (length l + i <= 2 * length (fst (prune_from clk fuel i l t)) + 1)%nat.
Proof.
  induction fuel as [|fuel IH]; intros i l t Hi; simpl; [lia|].
  destruct (l !! i) as [a|] eqn:Hl; simpl; [|lia].
  apply lookup_lt_Some in Hl as Hlt.
  destruct (10 <? timedelta_seconds (clk t - a)).
  - pose proof (length_remove_first_in a l i Hl) as Hlen.
    specialize (IH (S i) (remove_first a l) (S t) ltac:(lia)). lia.
  - specialize (IH (S i) l (S t) ltac:(lia)). lia.
Qed.

Lemma check_lengths l t :
  (length l <= 2 * length (fst (snd (check clk l t))))%nat
  /\ (length (fst (snd (check clk l t))) <= S (length l))%nat
  /\ fst (check clk l t) = negb (5 <=? length (fst (snd (check clk l t))))%nat.
Proof.
  unfold check.
  pose proof (prune_from_half (length (l ++ [clk t])) 0 (l ++ [clk t]) (S t)
                ltac:(lia)) as Hhalf.
  pose proof (prune_from_shrinks (length (l ++ [clk t])) 0 (l ++ [clk t]) (S t))
    as Hshrink.
  destruct (prune_from clk _ 0 _ (S t)) as [l2 t2].
  rewrite length_app in Hhalf, Hshrink. simpl in Hhalf, Hshrink.
  destruct (5 <=? length l2)%nat eqn:H5; cbn [fst snd]; rewrite ?H5;
    (split; [lia|split; [lia|reflexivity]]).
Qed.

End PruneBounds.


(** X2.  With nine or more attempts on record the next admission
    check is refused, however old they all are: of the ten entries the
    loop walks it can remove five at most. *)
Theorem nine_on_record_refused (E : Env) (w : world) :
  (9 <= length (_reconnection_attempts (bot w)))%nat ->
  fst (_should_reconnect E w) = Ok false.
Proof.
  intros H9. rewrite should_reconnect_unfold. cbn [fst]. unfold check_of.
  destruct (check_lengths (clock E) (_reconnection_attempts (bot w)) (ticks w))
    as (H1 & _ & H3).
  rewrite H3. f_equal. apply negb_false_iff, Nat.leb_le. lia.
Qed.

Lemma nine_on_record_refused_witness :
  let hour := 3600 * 1000000 in
  let w := mkWorld (with_attempts (repeat (- hour) 9) Demo.pica) [] 0 in
  fst (_should_reconnect Demo.env w) = Ok false.
Proof.
  apply (nine_on_record_refused Demo.env
           (mkWorld (with_attempts (repeat (- (3600 * 1000000)) 9) Demo.pica) [] 0)).
  simpl. lia.
Defined.

Lemma attempts_few (E : Env) (n : nat) : forall w,
  (length (_reconnection_attempts (bot w)) + n <= 4)%nat ->
  fst (attempts E n w) = Ok (repeat true n).
Proof.
  induction n as [|n IH]; intros w Hlen; [reflexivity|].
  rewrite attempts_unfold.
  destruct (check_lengths (clock E) (_reconnection_attempts (bot w)) (ticks w))
    as (_ & H2 & H3).
  specialize (IH (snd (_should_reconnect E w))).
  revert IH. rewrite should_reconnect_unfold. cbn [snd]. unfold check_of in *.
  set (res := Limiter.check _ _ _) in *. intros IH.
  rewrite (surjective_pairing (attempts E n _)), IH.
  - rewrite H3. cbn [fst repeat]. do 2 f_equal.
    apply negb_true_iff, Nat.leb_gt. lia.
  - simpl. lia.
Qed.

(** X3.  A bot with [k] attempts on record has its next [4 - k]
    admission checks admitted whatever the clock reads; so the first
    four attempts of a new bot always go through. *)
Theorem first_attempts_admitted (E : Env) (n : nat) (w : world) :
  (length (_reconnection_attempts (bot w)) + n <= 4)%nat ->
  fst (attempts E n w) = Ok (repeat true n).
Proof. apply attempts_few. Qed.

Lemma first_attempts_admitted_witness :
  fst (attempts Demo.daily_env 4 Demo.start) = Ok [true; true; true; true].
Proof.
  apply (first_attempts_admitted Demo.daily_env 4 Demo.start). simpl. lia.
Defined.

(** X4.  A bot without attempts on record, a clock that only moves
    forward, admission checks each made ten seconds or more after the
    one before, and all readings less than a day after the first:
    every check is admitted, although the prune loop steps over
    items. *)
Theorem spaced_attempts_admitted (E : Env) (n : nat) (w : world) :
  _reconnection_attempts (bot w) = [] ->
  (forall i j, (ticks w <= i <= j)%nat ->
               (j < ticks (snd (attempts E n w)))%nat ->
               clock E i <= clock E j) ->
  (forall i, (ticks w <= i < ticks (snd (attempts E n w)))%nat ->
             clock E i < clock E (ticks w) + 86400000000) ->
  spaced 10000000 (attempt_times E n w) = true ->
  fst (attempts E n w) = Ok (repeat true n).
Proof. apply spaced_attempts_within_a_day. Qed.

Lemma spaced_attempts_admitted_witness :
  let E := {| clock := fun n => Z.of_nat n * 10000000;
              json_loads := json_loads Demo.env;
              json_dumps := json_dumps Demo.env; py_int := py_int Demo.env;
              run_callable := run_callable Demo.env;
              ws_connect := ws_connect Demo.env; ws_frames := ws_frames Demo.env;
              ws_send := ws_send Demo.env; ws_close := ws_close Demo.env |} in
  attempt_times E 6 Demo.start
    = [0; 20000000; 40000000; 60000000; 80000000; 100000000]
  /\ fst (attempts E 6 Demo.start) = Ok [true; true; true; true; true; true].
Proof.
  intros E. split; [vm_compute; reflexivity|].
  apply (spaced_attempts_admitted E 6 Demo.start).
  - reflexivity.
  - intros i j Hij _. simpl. lia.
  - intros i Hi. vm_compute in Hi. simpl. lia.
  - vm_compute. reflexivity.
Defined.

(* ===================================================================== *)
(** * More on the tokenizer *)
(* ===================================================================== *)

Section TokenLaws.

Import Spec.

Lemma split_message_tokens s : tokens s (_split_message s).
Proof. unfold _split_message, findall. now apply tokens_findall. Qed.

Lemma tokens_split_message s ts : tokens s ts -> _split_message s = ts.
Proof. intros H. unfold _split_message, findall. now apply tokens_unique. Qed.

Lemma tokens_none s : tokens s [] -> Forall (fun c => is_space c = true) s.
Proof.
  intros H. remember [] as ts eqn:Hts.
  induction H; try discriminate; constructor; auto.
Qed.

Lemma tokens_shape s ts :
  tokens s ts ->
  Forall (fun t => (t <> [] /\ Forall (fun c => is_space c = false) t)
                   \/ ((DQ ∉ t) /\ (LF ∉ t))) ts.
Proof.
  induction 1; try constructor; auto.
Qed.

Lemma tokens_sublist s ts : tokens s ts -> sublist (concat ts) s.
Proof.
  induction 1 as [|c s ts Hc _ IH|body rest ts Hd Hl _ IH
                  |r rest ts Hne Hall Hstop Hnq _ IH]; simpl.
  - constructor.
  - now apply sublist_cons.
  - apply sublist_cons, sublist_app; [reflexivity|]. now apply sublist_cons.
  - now apply sublist_app.
Qed.

Lemma not_quoted_here c s : c <> DQ -> ~ quoted_here (c :: s).
Proof. intros Hc (body & rest & Heq & _). congruence. Qed.

(** Tokens of a text without quotes, a whitespace, then more text. *)
Lemma tokens_app_space a ta :
  tokens a ta -> forall c b tb,
  DQ ∉ a -> is_space c = true -> tokens b tb ->
  tokens (a ++ c :: b) (ta ++ tb).
Proof.
  induction 1 as [|c' s ts Hc' _ IH|body rest ts Hd Hl _ IH
                  |r rest ts Hne Hall Hstop Hnq _ IH];
    intros c b tb Hq Hc Hb; simpl.
  - now constructor.
  - apply not_elem_of_cons in Hq as [_ Hq]. constructor; auto.
  - exfalso. apply Hq. constructor.
  - apply not_elem_of_app in Hq as [Hqr Hqrest].
    rewrite <- app_assoc. constructor; auto.
    + destruct rest; simpl; auto.
    + destruct r as [|c0 r]; [congruence|].
      apply not_elem_of_cons in Hqr as [Hne0 _].
      apply not_quoted_here. congruence.
Qed.

Lemma tokens_plain_word t : plain_word t -> tokens t [t].
Proof.
  intros (Hne & Hall & Hq).
  rewrite <- (app_nil_r t) at 1.
  apply tokens_run; [exact Hne|exact Hall|exact I| |constructor].
  rewrite app_nil_r. destruct t as [|c t]; [congruence|].
  apply not_elem_of_cons in Hq as [Hc _]. apply not_quoted_here. congruence.
Qed.

Lemma tokens_join_plain ts :
  Forall plain_word ts -> tokens (join_words ts) ts.
Proof.
  induction 1 as [|t ts Ht Hts IH]; [constructor|].
  destruct ts as [|t' ts].
  - now apply tokens_plain_word.
  - change (join_words (t :: t' :: ts)) with (t ++ 32%N :: join_words (t' :: ts)).
    change (t :: t' :: ts) with ([t] ++ t' :: ts).
    apply tokens_app_space; [now apply tokens_plain_word| |reflexivity|exact IH].
    apply Ht.
Qed.

Lemma tokens_join_quoted ts :
  Forall (fun t => (DQ ∉ t) /\ (LF ∉ t)) ts ->
  tokens (join_words (map quoted ts)) ts.
Proof.
  induction 1 as [|t ts [Hq Hl] Hts IH]; [constructor|].
  destruct ts as [|t' ts].
  - simpl. unfold quoted. apply tokens_quoted; auto; constructor.
  - change (join_words (map quoted (t :: t' :: ts)))
      with (quoted t ++ 32%N :: join_words (map quoted (t' :: ts))).
    unfold quoted at 1. simpl. rewrite <- app_assoc. simpl.
    apply tokens_quoted; auto; apply tokens_space; [reflexivity|exact IH].
Qed.

End TokenLaws.

(** X5.  [_split_message] gives no token at all exactly for the
    strings made of whitespace only, the empty string among them;
    these are the texts after the prefix on which the unpacking in
    [_on_message] fails. *)
Theorem no_tokens_iff_blank (s : pystr) :
  _split_message s = [] <-> Forall (fun c => is_space c = true) s.
Proof.
  split.
  - intros H. apply tokens_none. rewrite <- H. apply split_message_tokens.
  - apply split_spaces.
Qed.

(** X6.  Every token is either a non-empty run without whitespace or
    a text without double quote and without line feed (the interior of
    a quoted span): an argument can hold whitespace only if it was
    quoted, and no token ever holds a line feed. *)
Theorem tokens_are_runs_or_interiors (s : pystr) :
  Forall (fun t => ((t <> [] /\ Forall (fun c => is_space c = false) t)
                    \/ ((DQ ∉ t) /\ (LF ∉ t)))
                   /\ (LF ∉ t))
         (_split_message s).
Proof.
  eapply Forall_impl; [apply (tokens_shape s), split_message_tokens|].
  intros t Ht. split; [exact Ht|].
  destruct Ht as [[_ Hrun]|[_ Hl]]; [|exact Hl].
  intros Hin. rewrite Forall_forall in Hrun.
  specialize (Hrun LF Hin). discriminate Hrun.
Qed.

(** X7.  The tokens, put one after the other, are a subsequence of
    the input: tokenizing only drops characters (whitespace and the
    quotes of spans), it never adds, changes or reorders any. *)
Theorem tokens_only_drop (s : pystr) : sublist (concat (_split_message s)) s.
Proof. apply tokens_sublist, split_message_tokens. Qed.

(** X8.  A text without double quote, one whitespace character, and
    any text after it: the tokens are those of the first text followed
    by those of the second. *)
Theorem split_at_whitespace (a b : pystr) (c : N) :
  DQ ∉ a -> is_space c = true ->
  _split_message (a ++ c :: b) = _split_message a ++ _split_message b.
Proof.
  intros Hq Hc. apply tokens_split_message.
  apply tokens_app_space; auto using split_message_tokens.
Qed.

Lemma split_at_whitespace_witness :
  _split_message (py "say hi" ++ 32%N :: quoted (py "to all"))
    = _split_message (py "say hi") ++ _split_message (quoted (py "to all")).
Proof.
  apply (split_at_whitespace (py "say hi") (quoted (py "to all")) 32%N).
  - vm_compute. intros H. repeat (apply elem_of_cons in H as [H|H]; [discriminate H|]).
    now apply elem_of_nil in H.
  - reflexivity.
Defined.

(** X9.  Words that are not empty and hold neither whitespace nor a
    double quote, joined by single spaces, are given back by the
    tokenizer one by one. *)
Theorem split_joined_words (ts : list pystr) :
  Forall plain_word ts -> _split_message (join_words ts) = ts.
Proof. intros H. now apply tokens_split_message, tokens_join_plain. Qed.

Lemma split_joined_words_witness :
  _split_message (join_words [py "ban"; py "alice"; py "10m"])
    = [py "ban"; py "alice"; py "10m"].
Proof.
  apply (split_joined_words [py "ban"; py "alice"; py "10m"]).
  repeat constructor; try discriminate;
    vm_compute; intros H;
    repeat (apply elem_of_cons in H as [H|H]; [discriminate H|]);
    now apply elem_of_nil in H.
Defined.

(** X10.  Texts without double quote and without line feed (they may
    be empty or hold whitespace), each put between double quotes and
    the whole joined by single spaces, are given back by the tokenizer
    one by one. *)
Theorem split_joined_quoted (ts : list pystr) :
  Forall (fun t => (DQ ∉ t) /\ (LF ∉ t)) ts ->
  _split_message (join_words (map quoted ts)) = ts.
Proof. intros H. now apply tokens_split_message, tokens_join_quoted. Qed.

Lemma split_joined_quoted_witness :
  _split_message (join_words (map quoted [py "hello world"; []; py " x "]))
    = [py "hello world"; []; py " x "].
Proof.
  apply (split_joined_quoted [py "hello world"; []; py " x "]).
  repeat constructor;
    vm_compute; intros H;
    repeat (apply elem_of_cons in H as [H|H]; [discriminate H|]);
    now apply elem_of_nil in H.
Defined.

(* ===================================================================== *)
(** * More on dispatch: registration and the shapes of frames *)
(* ===================================================================== *)

(** X11.  [emit] calls every listener registered for the event once,
    with the arguments given, in the order of registration, and calls
    nothing else; it does not read the clock.  With no listener for
    the event it returns normally and leaves the bot as it is. *)
Theorem emit_calls_each_listener (E : Env) (w : world) (event : pystr)
    (args : list pyval) :
  let listeners := default [] (_listeners (bot w) !! event) in
  trace (snd (emit E event args w))
    = trace w ++ Emit event args :: map (fun f => Invoke f args) listeners
  /\ ticks (snd (emit E event args w)) = ticks w
  /\ (listeners = [] ->
      emit E event args w
        = (Ok tt, mkWorld (bot w) (trace w ++ [Emit event args]) (ticks w))).
Proof.
  cbv zeta. split; [apply emit_trace|]. split.
  - unfold emit. run_M.
    destruct (_listeners (bot w) !! event) as [fs|]; [|reflexivity].
    match goal with |- context [gather ?ts ?w1] =>
      destruct (gather_calls_trace E args fs w1) as [_ Htk] end.
    destruct (gather _ _) as [[[]|e] w2]; exact Htk.
  - unfold emit. run_M.
    destruct (_listeners (bot w) !! event) as [fs|]; simpl; [|reflexivity].
    intros ->. reflexivity.
Qed.

Lemma emit_calls_each_listener_witness :
  emit Demo.env (py "closed") [VStr (py "bye")] Demo.start
    = (Ok tt, mkWorld Demo.pica [Emit (py "closed") [VStr (py "bye")]] 0).
Proof.
  destruct (emit_calls_each_listener Demo.env Demo.start (py "closed")
              [VStr (py "bye")]) as (_ & _ & H).
  apply H. vm_compute. reflexivity.
Defined.

Section Registration.

Context (E : Env).

Lemma on_lookup event f b :
  _listeners (on event f b) !! event
    = Some (default [] (_listeners b !! event) ++ [f]).
Proof.
  unfold on. cbn [_listeners]. rewrite lookup_alter_eq.
  destruct (_listeners b !! event) as [fs|] eqn:Hfs.
  - now rewrite Hfs.
  - now rewrite lookup_insert_eq.
Qed.

Lemma on_lookup_other event other f b :
  other <> event -> _listeners (on event f b) !! other = _listeners b !! other.
Proof.
  intros Hne. unfold on. cbn [_listeners].
  rewrite lookup_alter_ne by congruence.
  destruct (_listeners b !! event); [reflexivity|].
  now rewrite lookup_insert_ne by congruence.
Qed.

End Registration.

(** X12.  Registering a listener with [on] puts it behind the
    listeners the event already has and touches nothing else: the
    other events, the commands, the handle and the recorded attempts
    stay as they are.  An [emit] of the event then calls the old
    listeners as before and the new one last. *)
Theorem on_appends_listener (E : Env) (w : world) (event : pystr)
    (f : callable) (args : list pyval) :
  let b' := on event f (bot w) in
  _listeners b' !! event = Some (default [] (_listeners (bot w) !! event) ++ [f])
  /\ (forall other, other <> event ->
        _listeners b' !! other = _listeners (bot w) !! other)
  /\ (bot_name b', uri b', server b', prefix b', ws b', _commands b',
      _reconnection_attempts b')
     = (bot_name (bot w), uri (bot w), server (bot w), prefix (bot w),
        ws (bot w), _commands (bot w), _reconnection_attempts (bot w))
  /\ trace (snd (emit E event args (mkWorld b' (trace w) (ticks w))))
     = trace (snd (emit E event args w)) ++ [Invoke f args].
Proof.
  cbv zeta. split; [apply on_lookup|]. split; [intros; now apply on_lookup_other|].
  split; [reflexivity|].
  rewrite !emit_trace. cbn [bot trace]. rewrite on_lookup.
  unfold default at 1. cbn [from_option id].
  rewrite map_app, <- app_assoc. reflexivity.
Qed.

Lemma on_appends_listener_witness :
  _listeners (on (py "raw") 9%nat Demo.pica) !! py "raw" = Some [Demo.on_raw; 9%nat]
  /\ _listeners (on (py "raw") 9%nat Demo.pica) !! py "message"
     = Some [Demo.on_message].
Proof.
  destruct (on_appends_listener Demo.env Demo.start (py "raw") 9%nat [])
    as (H1 & H2 & _).
  split.
  - etransitivity; [exact H1|vm_compute; reflexivity].
  - etransitivity; [apply (H2 (py "message")); vm_compute; discriminate|].
    vm_compute. reflexivity.
Defined.

(** X13.  Registering a command under a name that is taken replaces
    the handler (the last registration wins) and leaves the other
    names alone; a message of somebody else that starts with the
    prefix and whose first token is the name is then handed to the
    new handler, with the envelope and the remaining tokens. *)
Theorem command_last_wins (E : Env) (w : world) (name : pystr)
    (f g : callable) :
  let b' := command name f (command name g (bot w)) in
  _commands b' = _commands (command name f (bot w))
  /\ _commands b' !! name = Some f
  /\ (forall other, other <> name ->
        _commands b' !! other = _commands (bot w) !! other)
  /\ (forall fields who body args,
        fields !! py "n" = Some who ->
        eq_str who (bot_name (bot w)) = false ->
        fields !! py "m" = Some (JStr body) ->
        startswith body (prefix (bot w)) = true ->
        _split_message (slice_from (length (prefix (bot w))) body) = name :: args ->
        route E (JDict fields) (mkWorld b' (trace w) (ticks w))
          = call E f (VMsg (mkPicaMessage (JDict fields)) :: map VStr args)
              (mkWorld b' (trace w) (ticks w))).
Proof.
  cbv zeta. unfold command. cbn [_commands].
  split; [now rewrite insert_insert_eq|].
  split; [apply lookup_insert_eq|].
  split; [intros other Hne; now rewrite !lookup_insert_ne by congruence|].
  intros fields who body args Hn Hwho Hm Hsw Htok.
  apply (route_command E fields who body name args f); try assumption.
  cbn [bot _commands]. apply lookup_insert_eq.
Qed.

Lemma command_last_wins_witness :
  let base := from_token (py "secret") (py "pica") (py "!")
                (py "chat.picarto.tv") true in
  let b' := command (py "greet") 8%nat (command (py "greet") Demo.greet base) in
  let part := Demo.envelope (py "alice") (py "!greet Alice") in
  route Demo.env part (mkWorld b' [] 0)
    = (Ok tt, mkWorld b'
                [Invoke 8%nat [VMsg (mkPicaMessage part); VStr (py "Alice")]] 0).
Proof.
  intros base b' part.
  destruct (command_last_wins Demo.env (mkWorld base [] 0)
              (py "greet") 8%nat Demo.greet) as (_ & _ & _ & H).
  etransitivity.
  - apply (H (<[py "n" := JStr (py "alice")]>
                (<[py "m" := JStr (py "!greet Alice")]> ∅))
             (JStr (py "alice")) (py "!greet Alice") [py "Alice"]);
      vm_compute; reflexivity.
  - vm_compute. reflexivity.
Defined.

Section FrameShapes.

Context (E : Env).

Lemma eq_str_other t :
  t <> Some (JStr (py "c")) -> eq_str (default JNull t) (py "c") = false.
Proof.
  intros Ht. destruct t as [[]|]; try reflexivity. simpl.
  apply bool_decide_eq_false_2. congruence.
Qed.

(** What [_on_message] does after a frame has been decoded. *)
Lemma on_message_decoded msg j w :
  msg <> [] ->
  json_loads E msg = Ok j ->
  _on_message E msg w
    = match emit E (py "raw") [VJson j] w with
      | (Ok _, w1) =>
          match get j (py "t") with
          | Ok t =>
              if eq_str t (py "c") then
                match getitem j (py "m") with
                | Ok m => match iterate m with
                          | Ok parts => for_each (route E) parts w1
                          | Raise e => (Raise e, w1)
                          end
                | Raise e => (Raise e, w1)
                end
              else (Ok tt, w1)
          | Raise e => (Raise e, w1)
          end
      | (Raise e, w1) => (Raise e, w1)
      end.
Proof.
  intros Hne Hload. unfold _on_message.
  destruct msg as [|c msg]; [congruence|]. cbn [truthy negb].
  rewrite Hload. run_M.
  destruct (emit E (py "raw") [VJson j] w) as [[[]|e] w1]; [|reflexivity].
  destruct (get j (py "t")) as [t|e]; [|reflexivity]. cbn [fst snd].
  destruct (eq_str t (py "c")); [|reflexivity].
  destruct (getitem j (py "m")) as [m|e]; [|reflexivity]. cbn [fst snd].
  destruct (iterate m) as [parts|e]; reflexivity.
Qed.

(** How [_listen] ends when the first frame makes [_on_message]
    raise an exception of class [Exception] other than
    [ConnectionClosed]. *)
Lemma listen_first_frame_raises w h msg frames ending e w1 :
  ws (bot w) = Some h ->
  ws_frames E h = (msg :: frames, ending) ->
  _on_message E msg w = (Raise e, w1) ->
  is_Exception e = true -> e <> ConnectionClosed ->
  _listen E w
    = (Ok tt, mkWorld (bot w1) (trace w1 ++ [Log (ErrorError e)]) (ticks w1)).
Proof.
  intros Hws Hframes Hon Hexc Hne.
  unfold _listen, read_frames. run_M. rewrite Hws, Hframes. cbn [fst snd].
  cbn [listen_loop]. run_M. rewrite Hon.
  destruct (decide (e = ConnectionClosed)); [congruence|].
  now rewrite Hexc.
Qed.

End FrameShapes.

(** X14.  A frame that decodes to a record whose [t] field is absent
    or is anything but the string [c] is passed on as a raw event and
    nothing more: [_on_message] does exactly what [emit] of "raw" with
    the record does, whatever else the record holds. *)
Theorem other_records_only_raw (E : Env) (w : world) (msg : pystr)
    (top : gmap pystr json) :
  msg <> [] ->
  json_loads E msg = Ok (JDict top) ->
  top !! py "t" <> Some (JStr (py "c")) ->
  _on_message E msg w = emit E (py "raw") [VJson (JDict top)] w.
Proof.
  intros Hne Hload Ht. rewrite (on_message_decoded E msg (JDict top) w Hne Hload).
  cbn [get]. rewrite (eq_str_other _ Ht).
  destruct (emit E (py "raw") [VJson (JDict top)] w) as [[[]|e] w1]; reflexivity.
Qed.

Lemma other_records_only_raw_witness :
  let E := {| clock := clock Demo.env;
              json_loads := fun _ => Ok (JDict (<[py "t" := JStr (py "j")]> ∅));
              json_dumps := json_dumps Demo.env; py_int := py_int Demo.env;
              run_callable := run_callable Demo.env;
              ws_connect := ws_connect Demo.env; ws_frames := ws_frames Demo.env;
              ws_send := ws_send Demo.env; ws_close := ws_close Demo.env |} in
  let record := JDict (<[py "t" := JStr (py "j")]> ∅) in
  _on_message E (py "{...}") Demo.start
    = (Ok tt, mkWorld Demo.pica
                [Emit (py "raw") [VJson record]; Invoke Demo.on_raw [VJson record]] 0).
Proof.
  intros E record. etransitivity.
  - apply (other_records_only_raw E Demo.start (py "{...}")
             (<[py "t" := JStr (py "j")]> ∅)).
    + vm_compute; discriminate.
    + reflexivity.
    + vm_compute; discriminate.
  - vm_compute. reflexivity.
Defined.

(** X15.  A frame that is valid JSON but not a record (a number, a
    string, a list, a boolean, null): the raw event is emitted with
    the value, then asking it for its [t] field raises
    [AttributeError] out of [_on_message]; [_listen] logs the error and
    returns, so the frames still to come on the connection are not
    read. *)
Theorem non_record_frame_ends_listening (E : Env) (w : world) (h : handle)
    (msg : pystr) (frames : list pystr) (ending : option exn) (j : json) :
  ws (bot w) = Some h ->
  ws_frames E h = (msg :: frames, ending) ->
  msg <> [] ->
  json_loads E msg = Ok j ->
  (forall top, j <> JDict top) ->
  let raw := emit E (py "raw") [VJson j] w in
  fst raw = Ok tt ->
  _on_message E msg w = (Raise AttributeError, snd raw)
  /\ _listen E w
     = (Ok tt, mkWorld (bot (snd raw))
                       (trace (snd raw) ++ [Log (ErrorError AttributeError)])
                       (ticks (snd raw))).
Proof.
  intros Hws Hframes Hne Hload Hj raw Hraw.
  assert (Hon : _on_message E msg w = (Raise AttributeError, snd raw)).
  { rewrite (on_message_decoded E msg j w Hne Hload). fold raw.
    destruct raw as [[[]|e] w1]; [|discriminate Hraw].
    destruct j; try reflexivity. exfalso. now apply (Hj fields). }
  split; [exact Hon|].
  apply (listen_first_frame_raises E w h msg frames ending AttributeError (snd raw));
    auto; discriminate.
Qed.

Lemma non_record_frame_ends_listening_witness :
  let E := {| clock := clock Demo.env;
              json_loads := fun _ => Ok (JInt 42);
              json_dumps := json_dumps Demo.env; py_int := py_int Demo.env;
              run_callable := run_callable Demo.env;
              ws_connect := ws_connect Demo.env;
              ws_frames := fun _ => ([py "42"; Demo.frame "alice" "hello"], None);
              ws_send := ws_send Demo.env; ws_close := ws_close Demo.env |} in
  let w := mkWorld (with_ws (Some 7%nat) Demo.pica) [] 0 in
  _listen E w
    = (Ok tt, mkWorld (with_ws (Some 7%nat) Demo.pica)
                [Emit (py "raw") [VJson (JInt 42)];
                 Invoke Demo.on_raw [VJson (JInt 42)];
                 Log (ErrorError AttributeError)] 0).
Proof.
  intros E w.
  destruct (non_record_frame_ends_listening E w 7%nat (py "42")
              [Demo.frame "alice" "hello"] None (JInt 42)) as (_ & H).
  - reflexivity.
  - reflexivity.
  - vm_compute; discriminate.
  - reflexivity.
  - discriminate.
  - vm_compute; reflexivity.
  - etransitivity; [exact H|vm_compute; reflexivity].
Defined.

(** X16.  A record marked as a chat batch ([t] is [c]) whose [m]
    field is missing raises [KeyError] for [m] right after the raw
    event; one whose [m] is a number, a boolean or null raises
    [TypeError] there; in both cases nothing is routed. *)
Theorem batch_without_list_raises (E : Env) (w : world) (msg : pystr)
    (top : gmap pystr json) :
  msg <> [] ->
  json_loads E msg = Ok (JDict top) ->
  top !! py "t" = Some (JStr (py "c")) ->
  let raw := emit E (py "raw") [VJson (JDict top)] w in
  fst raw = Ok tt ->
  (top !! py "m" = None ->
   _on_message E msg w = (Raise (KeyError (py "m")), snd raw))
  /\ (forall v, top !! py "m" = Some v ->
        (v = JNull \/ (exists b, v = JBool b) \/ (exists z, v = JInt z)
         \/ (exists f, v = JFloat f)) ->
        _on_message E msg w = (Raise TypeError, snd raw)).
Proof.
  intros Hne Hload Ht raw Hraw.
  rewrite (on_message_decoded E msg (JDict top) w Hne Hload). fold raw.
  destruct raw as [[[]|e] w1]; [|discriminate Hraw].
  cbn [get getitem]. rewrite Ht. cbn [default from_option id eq_str].
  rewrite bool_decide_eq_true_2 by reflexivity. split.
  - intros ->. reflexivity.
  - intros v -> Hv.
    destruct Hv as [->|[[b ->]|[[z ->]|[f ->]]]]; reflexivity.
Qed.

Lemma batch_without_list_raises_witness :
  let E := {| clock := clock Demo.env;
              json_loads := fun _ => Ok (JDict (<[py "t" := JStr (py "c")]> ∅));
              json_dumps := json_dumps Demo.env; py_int := py_int Demo.env;
              run_callable := run_callable Demo.env;
              ws_connect := ws_connect Demo.env; ws_frames := ws_frames Demo.env;
              ws_send := ws_send Demo.env; ws_close := ws_close Demo.env |} in
  fst (_on_message E (py "{...}") Demo.start) = Raise (KeyError (py "m")).
Proof.
  intros E.
  destruct (batch_without_list_raises E Demo.start (py "{...}")
              (<[py "t" := JStr (py "c")]> ∅)) as (H & _).
  - vm_compute; discriminate.
  - reflexivity.
  - vm_compute; reflexivity.
  - vm_compute; reflexivity.
  - rewrite H; [reflexivity|vm_compute; reflexivity].
Defined.

(* ===================================================================== *)
(** * What the methods keep *)
(* ===================================================================== *)

Section Steps.

Context (E : Env) (R : world -> world -> Prop).

Hypothesis R_refl : forall w, R w w.
Hypothesis R_trans : forall w1 w2 w3, R w1 w2 -> R w2 w3 -> R w1 w3.
Hypothesis R_record : forall a w, quiet a -> R w (snd (record a w)).
Hypothesis R_call : forall f args w, R w (snd (call E f args w)).

Lemma stays_ret {A} (a : A) : stays R (mret a).
Proof. intros w. apply R_refl. Qed.

Lemma stays_raise {A} e : stays R (raise (A := A) e).
Proof. intros w. apply R_refl. Qed.

Lemma stays_lift {A} (r : result A) : stays R (lift r).
Proof. intros w. apply R_refl. Qed.

Lemma stays_gets {A} (f : PicaBot -> A) : stays R (gets f).
Proof. intros w. apply R_refl. Qed.

Lemma stays_bind {A B} (m : M A) (k : A -> M B) :
  stays R m -> (forall a, stays R (k a)) -> stays R (mbind (M := M) k m).
Proof.
  intros Hm Hk w. unfold mbind, M_bind. specialize (Hm w).
  destruct (m w) as [[a|e] w1]; simpl in *; [|exact Hm].
  eapply R_trans; [exact Hm|apply Hk].
Qed.

Lemma stays_gather tasks : Forall (stays R) tasks -> stays R (gather tasks).
Proof.
  induction 1 as [|t ts Ht _ IH]; intros w; [apply R_refl|].
  rewrite gather_cons_snd. eapply R_trans; [apply Ht|apply IH].
Qed.

Lemma stays_emit event args : stays R (emit E event args).
Proof.
  unfold emit. apply stays_bind; [intros w; now apply R_record|intros _].
  apply stays_bind; [apply stays_gets|intros ls].
  destruct (ls !! event) as [fs|]; [|apply stays_ret].
  apply stays_gather, Forall_map, Forall_forall. intros f _ w. apply R_call.
Qed.

Lemma stays_route part : stays R (route E part).
Proof.
  unfold route.
  apply stays_bind; [apply stays_lift|intros who].
  apply stays_bind; [apply stays_lift|intros message].
  apply stays_bind; [apply stays_gets|intros name].
  destruct (eq_str who name); [apply stays_ret|].
  apply stays_bind; [apply stays_gets|intros pre].
  destruct message; try apply stays_raise.
  destruct (startswith s pre); [|apply stays_emit].
  destruct (_split_message _) as [|command_name args]; [apply stays_raise|].
  apply stays_bind; [apply stays_gets|intros cmds].
  destruct (cmds !! command_name); [|apply stays_emit].
  intros w. apply R_call.
Qed.

Lemma stays_for_each {A} (body : A -> M unit) xs :
  (forall x, stays R (body x)) -> stays R (for_each body xs).
Proof.
  intros Hbody. induction xs as [|x xs IH]; [apply stays_ret|].
  cbn [for_each]. apply stays_bind; [apply Hbody|intros _; exact IH].
Qed.

Lemma stays_on_message msg : stays R (_on_message E msg).
Proof.
  unfold _on_message. destruct (negb (truthy msg)); [apply stays_ret|].
  destruct (json_loads E msg) as [message|e].
  - apply stays_bind; [apply stays_emit|intros _].
    apply stays_bind; [apply stays_lift|intros t].
    destruct (eq_str t (py "c")); [|apply stays_ret].
    apply stays_bind; [apply stays_lift|intros m].
    apply stays_bind; [apply stays_lift|intros parts].
    apply stays_for_each, stays_route.
  - destruct e; try apply stays_raise. intros w. now apply R_record.
Qed.

Lemma stays_listen_loop frames ending : stays R (listen_loop E frames ending).
Proof.
  induction frames as [|message frames IH]; cbn [listen_loop].
  - destruct ending; [apply stays_raise|apply stays_ret].
  - apply stays_bind; [apply stays_on_message|intros _; exact IH].
Qed.

Lemma stays_read_frames : stays R (read_frames E).
Proof.
  unfold read_frames. apply stays_bind; [apply stays_gets|intros h].
  destruct h; [apply stays_listen_loop|apply stays_raise].
Qed.

Lemma stays_listen : stays R (_listen E).
Proof.
  intros w. unfold _listen. pose proof (stays_read_frames w) as Hr.
  destruct (read_frames E w) as [[[]|e] w1]; simpl in *; [exact Hr|].
  destruct (decide (e = ConnectionClosed)).
  - eapply R_trans; [exact Hr|now apply R_record].
  - destruct (is_Exception e); [|exact Hr].
    eapply R_trans; [exact Hr|now apply R_record].
Qed.

End Steps.

Lemma quietly_after_refl w : quietly_after w w.
Proof. split; [reflexivity|]. exists []. now rewrite app_nil_r. Qed.

Lemma quietly_after_trans w1 w2 w3 :
  quietly_after w1 w2 -> quietly_after w2 w3 -> quietly_after w1 w3.
Proof.
  intros (Ht1 & l1 & Hl1 & Hq1) (Ht2 & l2 & Hl2 & Hq2).
  split; [congruence|]. exists (l1 ++ l2).
  rewrite Hl2, Hl1, app_assoc. split; [reflexivity|now apply Forall_app].
Qed.

(** X17.  Handling frames is quiet: whatever the frames hold and
    whatever user code does, [_on_message] and [_listen] add to the
    trace only log records, events and calls of user code, never an
    action on the transport (connect, send, close) or a sleep, and
    they never read the clock. *)
Theorem listening_is_quiet (E : Env) (w : world) (msg : pystr) :
  quietly_after w (snd (_on_message E msg w))
  /\ quietly_after w (snd (_listen E w)).
Proof.
  assert (Hrec : forall a w0, quiet a -> quietly_after w0 (snd (record a w0))).
  { intros a w0 Ha. split; [reflexivity|]. exists [a]. simpl. auto. }
  assert (Hcall : forall f args w0, quietly_after w0 (snd (call E f args w0))).
  { intros f args w0. rewrite call_snd. split; [reflexivity|].
    exists [Invoke f args]. simpl. split; [reflexivity|]. repeat constructor. }
  split.
  - apply (stays_on_message E quietly_after quietly_after_refl
             quietly_after_trans Hrec Hcall).
  - apply (stays_listen E quietly_after quietly_after_refl
             quietly_after_trans Hrec Hcall).
Qed.

Section Kept.

Context (E : Env) (I : PicaBot -> Prop).

Hypothesis user_code : user_code_keeps E I.
Hypothesis handle_set : forall h b, I b -> I (with_ws (Some h) b).
Hypothesis attempts_set : forall l b, I b -> I (with_attempts l b).

Lemma kept_refl w : kept I w w.
Proof. intros H. exact H. Qed.

Lemma kept_trans w1 w2 w3 : kept I w1 w2 -> kept I w2 w3 -> kept I w1 w3.
Proof. unfold kept. auto. Qed.

Lemma kept_record a w : kept I w (snd (record a w)).
Proof. intros H. exact H. Qed.

Lemma kept_call f args w : kept I w (snd (call E f args w)).
Proof. rewrite call_snd. intros H. simpl. now apply user_code. Qed.

Lemma kept_listen w : kept I w (snd (_listen E w)).
Proof.
  apply (stays_listen E (kept I) kept_refl kept_trans); intros;
    [apply kept_record|apply kept_call].
Qed.

Lemma kept_on_message msg w : kept I w (snd (_on_message E msg w)).
Proof.
  apply (stays_on_message E (kept I) kept_refl kept_trans); intros;
    [apply kept_record|apply kept_call].
Qed.

Lemma kept_emit event args w : kept I w (snd (emit E event args w)).
Proof.
  apply (stays_emit E (kept I) kept_refl kept_trans); intros;
    [apply kept_record|apply kept_call].
Qed.

Lemma kept_close w : kept I w (snd (close E w)).
Proof.
  unfold close. run_M. destruct (ws (bot w)) as [h|]; simpl; [|apply kept_refl].
  destruct (ws_close E h _); intros H; exact H.
Qed.

Lemma kept_send payload w : kept I w (snd (send E payload w)).
Proof.
  unfold send. run_M. destruct (ws (bot w)) as [h|]; simpl; [|apply kept_refl].
  destruct (json_dumps E payload) as [text|e]; simpl; [|apply kept_refl].
  destruct (ws_send E h text _); intros H; exact H.
Qed.

Lemma kept_should_reconnect w : kept I w (snd (_should_reconnect E w)).
Proof. rewrite should_reconnect_unfold. intros H. simpl. now apply attempts_set. Qed.

Lemma kept_connect_and_listen w : kept I w (snd (connect_and_listen E w)).
Proof.
  unfold connect_and_listen. run_M.
  destruct (ws_connect E (uri (bot w)) _) as [h|e]; simpl;
    [|intros H; exact H].
  match goal with |- context [_listen E ?w1] =>
    pose proof (kept_listen w1) as Hl; destruct (_listen E w1) as [r w2] end.
  simpl in *. intros H. apply Hl. now apply handle_set.
Qed.

Lemma kept_connect fuel : forall w r w',
  connect E fuel w = Some (r, w') -> kept I w w'.
Proof.
  induction fuel as [|fuel IH]; intros w r w' Hc; [discriminate|].
  cbn [connect] in Hc.
  pose proof (kept_should_reconnect w) as H1.
  destruct (_should_reconnect E w) as [[[]|e] w1]; simpl in H1.
  - pose proof (kept_connect_and_listen w1) as H2.
    destruct (connect_and_listen E w1) as [[[]|e] w2]; simpl in H2.
    + unfold log, record in Hc. run_M. simpl in Hc. apply IH in Hc.
      intros H. apply Hc. simpl. auto.
    + destruct (decide (e = KeyboardInterrupt)).
      * pose proof (kept_close w2) as H3.
        destruct (close E w2) as [r3 w3]. injection Hc as <- <-.
        intros H. simpl in H3. auto.
      * destruct (is_Exception e).
        -- unfold log, record in Hc. run_M. simpl in Hc. apply IH in Hc.
           intros H. apply Hc. simpl. auto.
        -- injection Hc as <- <-. intros H. auto.
  - unfold log, record in Hc. simpl in Hc. injection Hc as <- <-.
    intros H. simpl. auto.
  - injection Hc as <- <-. exact H1.
Qed.

Lemma methods_keep w :
  I (bot w) ->
  (forall event args, I (bot (snd (emit E event args w))))
  /\ (forall msg, I (bot (snd (_on_message E msg w))))
  /\ I (bot (snd (_listen E w)))
  /\ I (bot (snd (close E w)))
  /\ (forall payload, I (bot (snd (send E payload w))))
  /\ I (bot (snd (_should_reconnect E w)))
  /\ (forall fuel r w', connect E fuel w = Some (r, w') -> I (bot w')).
Proof.
  intros H. repeat split; intros.
  - now apply kept_emit.
  - now apply kept_on_message.
  - now apply kept_listen.
  - now apply kept_close.
  - now apply kept_send.
  - now apply kept_should_reconnect.
  - eapply kept_connect; eauto.
Qed.

End Kept.

(** X18.  No method of the bot ever clears the connection handle:
    if user code does not clear it either, a bot that is connected
    stays connected through [emit], [_on_message], [_listen], [close],
    [send], [_should_reconnect] and the whole run of [connect],
    however that run ends. *)
Theorem handle_never_cleared (E : Env) (w : world) :
  user_code_keeps E (fun b => connected b = true) ->
  connected (bot w) = true ->
  (forall event args, connected (bot (snd (emit E event args w))) = true)
  /\ (forall msg, connected (bot (snd (_on_message E msg w))) = true)
  /\ connected (bot (snd (_listen E w))) = true
  /\ connected (bot (snd (close E w))) = true
  /\ (forall payload, connected (bot (snd (send E payload w))) = true)
  /\ connected (bot (snd (_should_reconnect E w))) = true
  /\ (forall fuel r w', connect E fuel w = Some (r, w') ->
        connected (bot w') = true).
Proof.
  intros Huser Hw.
  apply (methods_keep E (fun b => connected b = true)); auto.
Qed.

Lemma handle_never_cleared_witness :
  let w := mkWorld (with_ws (Some 7%nat) Demo.pica) [] 0 in
  connected (bot (snd (close Demo.env w))) = true
  /\ connected (bot (snd (_listen Demo.env w))) = true.
Proof.
  intros w.
  destruct (handle_never_cleared Demo.env w) as (_ & _ & H3 & H4 & _).
  - intros f args b Hb. exact Hb.
  - reflexivity.
  - split; [exact H4|exact H3].
Defined.

(** X19.  The bot's name, URL, server, prefix and its two registries
    are changed by none of the methods that run the bot: if user code
    leaves them alone, they are the same after [emit], [_on_message],
    [_listen], [close], [send], [_should_reconnect] and [connect] as
    before.  Only [on] and [command] fill the registries. *)
Theorem configuration_is_kept (E : Env) (w : world) :
  user_code_keeps E (fun b => configuration b = configuration (bot w)) ->
  (forall event args,
     configuration (bot (snd (emit E event args w))) = configuration (bot w))
  /\ (forall msg,
        configuration (bot (snd (_on_message E msg w))) = configuration (bot w))
  /\ configuration (bot (snd (_listen E w))) = configuration (bot w)
  /\ configuration (bot (snd (close E w))) = configuration (bot w)
  /\ (forall payload,
        configuration (bot (snd (send E payload w))) = configuration (bot w))
  /\ configuration (bot (snd (_should_reconnect E w))) = configuration (bot w)
  /\ (forall fuel r w', connect E fuel w = Some (r, w') ->
        configuration (bot w') = configuration (bot w)).
Proof.
  intros Huser.
  apply (methods_keep E (fun b => configuration b = configuration (bot w)));
    auto.
Qed.

Lemma configuration_is_kept_witness :
  configuration (bot (snd (_listen Demo.env Demo.start))) = configuration Demo.pica
  /\ configuration (bot (snd (_should_reconnect Demo.env Demo.start)))
     = configuration Demo.pica.
Proof.
  destruct (configuration_is_kept Demo.env Demo.start)
    as (_ & _ & H3 & _ & _ & H6 & _).
  - intros f args b Hb. exact Hb.
  - split; [exact H3|exact H6].
Defined.

(* ===================================================================== *)
(** * What gets out of the loops *)
(* ===================================================================== *)

Section Escapes.

Context (E : Env).

Lemma listen_raises w e :
  fst (_listen E w) = Raise e ->
  is_Exception e = false /\ fst (read_frames E w) = Raise e.
Proof.
  unfold _listen. destruct (read_frames E w) as [[[]|e0] w1]; simpl;
    [discriminate|].
  destruct (decide (e0 = ConnectionClosed)); [discriminate|].
  destruct (is_Exception e0) eqn:He0; [discriminate|].
  intros H. injection H as <-. auto.
Qed.

Lemma close_raises w e w' :
  close E w = (Raise e, w') ->
  exists h, ws (bot w) = Some h
            /\ w' = mkWorld (bot w) (trace w ++ [WsClose h]) (ticks w)
            /\ ws_close E h (trace w') = Some e.
Proof.
  unfold close. run_M. destruct (ws (bot w)) as [h|]; simpl; [|discriminate].
  destruct (ws_close E h _) as [e0|] eqn:Hc; [|discriminate].
  intros H. injection H as <- <-. exists h. auto.
Qed.

Lemma connect_raises fuel : forall w e w',
  connect E fuel w = Some (Raise e, w') ->
  is_Exception e = false
  \/ exists h, last (trace w') = Some (WsClose h)
               /\ ws_close E h (trace w') = Some e.
Proof.
  induction fuel as [|fuel IH]; intros w e w' Hc; [discriminate|].
  cbn [connect] in Hc.
  destruct (should_reconnect_total E w) as (b & Hb & _).
  destruct (_should_reconnect E w) as [r1 w1]. simpl in Hb. subst r1.
  destruct b.
  - destruct (connect_and_listen E w1) as [[[]|e0] w2].
    + unfold log, record in Hc. run_M. simpl in Hc. now apply IH in Hc.
    + destruct (decide (e0 = KeyboardInterrupt)).
      * injection Hc as Hc. apply close_raises in Hc as (h & _ & -> & Hclose).
        right. exists h. split; [|exact Hclose].
        simpl. now rewrite last_snoc.
      * destruct (is_Exception e0) eqn:He0.
        -- unfold log, record in Hc. run_M. simpl in Hc. now apply IH in Hc.
        -- injection Hc as <- <-. now left.
  - unfold log, record in Hc. simpl in Hc. discriminate Hc.
Qed.

End Escapes.

(** X20.  [_listen] lets no instance of [Exception] out.  When its
    read loop ends normally it returns with nothing logged; when the
    read loop raises [ConnectionClosed] or another instance of
    [Exception] it logs one error record and returns normally;
    anything else (a [KeyboardInterrupt], say) goes through unlogged.
    So an instance of [Exception] that leaves the [try] block of
    [connect] was raised by [websockets.connect] itself, before a
    handle was stored or a frame read. *)
Theorem listen_contains_exceptions (E : Env) (w : world) :
  match read_frames E w with
  | (Ok _, w1) => _listen E w = (Ok tt, w1)
  | (Raise e, w1) =>
      if decide (e = ConnectionClosed) then
        _listen E w
        = (Ok tt, mkWorld (bot w1) (trace w1 ++ [Log (ErrorConnectionClosed e)])
                          (ticks w1))
      else if is_Exception e then
        _listen E w
        = (Ok tt, mkWorld (bot w1) (trace w1 ++ [Log (ErrorError e)]) (ticks w1))
      else _listen E w = (Raise e, w1)
  end
  /\ (forall e, fst (_listen E w) = Raise e -> is_Exception e = false)
  /\ (forall e,
        fst (connect_and_listen E w) = Raise e -> is_Exception e = true ->
        ws_connect E (uri (bot w)) (trace w ++ [WsConnect (uri (bot w))]) = Raise e
        /\ snd (connect_and_listen E w)
           = mkWorld (bot w) (trace w ++ [WsConnect (uri (bot w))]) (ticks w)).
Proof.
  split; [|split].
  - unfold _listen. destruct (read_frames E w) as [[[]|e] w1]; [reflexivity|].
    destruct (decide (e = ConnectionClosed)); [reflexivity|].
    destruct (is_Exception e); reflexivity.
  - intros e He. now apply (listen_raises E w e).
  - intros e. unfold connect_and_listen. run_M.
    destruct (ws_connect E (uri (bot w)) _) as [h|e0]; simpl.
    + match goal with |- context [_listen E ?w1] =>
        pose proof (listen_raises E w1 e) as Hl;
        destruct (_listen E w1) as [r w2] end.
      simpl in *. intros -> Hexc. destruct (Hl eq_refl) as [Hno _]. congruence.
    + intros H _. injection H as <-. auto.
Qed.

Lemma listen_contains_exceptions_witness :
  let E := {| clock := clock Demo.env; json_loads := json_loads Demo.env;
              json_dumps := json_dumps Demo.env; py_int := py_int Demo.env;
              run_callable := run_callable Demo.env;
              ws_connect := ws_connect Demo.env;
              ws_frames := fun _ => ([py "not json"], Some KeyboardInterrupt);
              ws_send := ws_send Demo.env; ws_close := ws_close Demo.env |} in
  let w := mkWorld (with_ws (Some 7%nat) Demo.pica) [] 0 in
  fst (_listen E w) = Raise KeyboardInterrupt
  /\ is_Exception KeyboardInterrupt = false
  /\ snd (connect_and_listen E w)
     = mkWorld (with_ws (Some 7%nat) Demo.pica) [WsConnect (uri Demo.pica)] 0.
Proof.
  intros E w. destruct (listen_contains_exceptions E w) as (_ & H2 & H3).
  split; [vm_compute; reflexivity|]. split.
  - apply (H2 KeyboardInterrupt). vm_compute. reflexivity.
  - destruct (H3 (OtherException 0)) as [_ Hw];
      [vm_compute; reflexivity|reflexivity|exact Hw].
Defined.

(** X21.  When [connect] ends by raising, the exception is either
    not an instance of [Exception] (it went through the loop
    untouched) or it was raised by the transport's [close] while the
    loop was shutting down after a [KeyboardInterrupt]; failures to
    connect and errors while listening never get out of [connect]. *)
Theorem connect_contains_exceptions (E : Env) (fuel : nat) (w w' : world)
    (e : exn) :
  connect E fuel w = Some (Raise e, w') ->
  is_Exception e = false
  \/ exists h, last (trace w') = Some (WsClose h)
               /\ ws_close E h (trace w') = Some e.
Proof. apply connect_raises. Qed.

Lemma connect_contains_exceptions_witness :
  let E := {| clock := clock Demo.env; json_loads := json_loads Demo.env;
              json_dumps := json_dumps Demo.env; py_int := py_int Demo.env;
              run_callable := run_callable Demo.env;
              ws_connect := fun _ _ => Raise (OtherBaseException 1);
              ws_frames := ws_frames Demo.env;
              ws_send := ws_send Demo.env; ws_close := ws_close Demo.env |} in
  connect E 1 Demo.start
    = Some (Raise (OtherBaseException 1),
            mkWorld (with_attempts [0] Demo.pica) [WsConnect (uri Demo.pica)] 2)
  /\ (is_Exception (OtherBaseException 1) = false
      \/ exists h, last [WsConnect (uri Demo.pica)] = Some (WsClose h)
                   /\ ws_close E h [WsConnect (uri Demo.pica)]
                      = Some (OtherBaseException 1)).
Proof.
  intros E. split; [vm_compute; reflexivity|].
  apply (connect_contains_exceptions E 1 Demo.start
           (mkWorld (with_attempts [0] Demo.pica) [WsConnect (uri Demo.pica)] 2)
           (OtherBaseException 1)).
  vm_compute. reflexivity.
Defined.

(* ===================================================================== *)
(** * Construction, envelopes and sending *)
(* ===================================================================== *)

(** X22.  Both factories give a bot that is not connected and has no
    listener, no command and no attempt on record, with the name, the
    prefix and the server as given; the URL starts with [wss://]
    exactly when the secure flag is set. *)
Theorem factories_give_fresh_bot (token username password name pre srv : pystr)
    (secure : bool) (b : PicaBot) :
  b = from_token token name pre srv secure
  \/ b = from_password username password name pre srv secure ->
  connected b = false
  /\ _listeners b = ∅ /\ _commands b = ∅ /\ _reconnection_attempts b = []
  /\ bot_name b = name /\ prefix b = pre /\ server b = srv
  /\ startswith (uri b) (py "wss://") = secure
  /\ startswith (uri b) (py "ws") = true.
Proof.
  intros [-> | ->]; destruct secure; repeat split; vm_compute; reflexivity.
Qed.

Lemma factories_give_fresh_bot_witness :
  let b := from_password (py "pica") (py "hunter2") (py "pica") (py "!")
             (py "chat.picarto.tv") false in
  connected b = false /\ startswith (uri b) (py "wss://") = false
  /\ uri b = py "ws://chat.picarto.tv/bot/username=pica&password=hunter2".
Proof.
  intros b.
  destruct (factories_give_fresh_bot [] (py "pica") (py "hunter2") (py "pica")
              (py "!") (py "chat.picarto.tv") false b)
    as (H1 & _ & _ & _ & _ & _ & _ & H8 & _).
  - right. reflexivity.
  - split; [exact H1|]. split; [exact H8|]. vm_compute. reflexivity.
Defined.

(** X23.  [from_password] pastes user name and password into the URL
    as they are: a user name ending in [&password=p] with password [q]
    gives the very bot that the user name without that ending gives
    with the password [p&password=q], so the URL does not tell the two
    pairs of credentials apart. *)
Theorem from_password_pastes_credentials
    (u p q name pre srv : pystr) (secure : bool) :
  from_password (u ++ py "&password=" ++ p) q name pre srv secure
  = from_password u (p ++ py "&password=" ++ q) name pre srv secure.
Proof.
  unfold from_password, PicaBot_init. f_equal.
  repeat rewrite <- app_assoc. reflexivity.
Qed.

Section Accessors.

Context (int : json -> result Z).

Lemma accessor_cases key acc :
  In (key, acc) (Envelope.accessors int) ->
  (acc = (fun m => getitem (data m) key) /\ key <> py "a")
  \/ (key = py "a"
      /\ acc = fun m => match Envelope.message_timestamp int m with
                        | Ok z => Ok (JInt z)
                        | Raise e => Raise e
                        end).
Proof.
  simpl. intros H.
  repeat (destruct H as [H|H];
          [injection H as <- <-;
           first [ left; split; [reflexivity|vm_compute; discriminate]
                 | right; split; reflexivity ] |]).
  destruct H.
Qed.

End Accessors.

(** X24.  The ten accessors of [PicaMessage] read ten different keys
    and each depends on its own key only: setting any other key of the
    sub-record leaves its answer unchanged, and after setting its own
    key it returns just that value (the timestamp accessor returns
    what [int] makes of it).  On a sub-record that is not a dict every
    accessor raises [TypeError]. *)
Theorem accessors_read_own_field (E : Env) (d : gmap pystr json) :
  NoDup (map fst (Envelope.accessors (py_int E)))
  /\ forall key acc, In (key, acc) (Envelope.accessors (py_int E)) ->
       (forall k v, k <> key ->
          acc (mkPicaMessage (JDict (<[k := v]> d))) = acc (mkPicaMessage (JDict d)))
       /\ (forall v, key <> py "a" ->
             acc (mkPicaMessage (JDict (<[key := v]> d))) = Ok v)
       /\ (forall v, key = py "a" ->
             acc (mkPicaMessage (JDict (<[key := v]> d)))
             = match py_int E v with Ok z => Ok (JInt z) | Raise e => Raise e end)
       /\ (forall j, (forall top, j <> JDict top) ->
             acc (mkPicaMessage j) = Raise TypeError).
Proof.
  split.
  - simpl. repeat (constructor;
      [vm_compute; intros H;
       repeat (apply elem_of_cons in H as [H|H]; [discriminate H|]);
       now apply elem_of_nil in H|]).
    constructor.
  - intros key acc Hin.
    destruct (accessor_cases (py_int E) key acc Hin) as [[-> Hkey]|[-> ->]].
    + repeat split.
      * intros k v Hk. cbn [data getitem]. now rewrite lookup_insert_ne.
      * intros v _. cbn [data getitem]. now rewrite lookup_insert_eq.
      * intros v Ha. congruence.
      * intros j Hj. cbn [data]. destruct j; try reflexivity.
        exfalso. now apply (Hj fields).
    + unfold Envelope.message_timestamp. repeat split.
      * intros k v Hk. cbn [data getitem]. now rewrite lookup_insert_ne.
      * intros v Ha. congruence.
      * intros v _. cbn [data getitem]. now rewrite lookup_insert_eq.
      * intros j Hj. cbn [data]. destruct j; try reflexivity.
        exfalso. now apply (Hj fields).
Qed.

Lemma accessors_read_own_field_witness :
  let part := Demo.envelope (py "alice") (py "hello") in
  Envelope.user_name (mkPicaMessage part) = Ok (JStr (py "alice"))
  /\ Envelope.user_name (mkPicaMessage (JStr (py "alice"))) = Raise TypeError.
Proof.
  destruct (accessors_read_own_field Demo.env (<[py "m" := JStr (py "hello")]> ∅))
    as (_ & H).
  destruct (H (py "n") Envelope.user_name) as (_ & H2 & _ & H4).
  - simpl. auto 10.
  - split.
    + apply (H2 (JStr (py "alice"))). vm_compute. discriminate.
    + apply (H4 (JStr (py "alice"))). discriminate.
Defined.

(** X25.  [send] never changes the bot and never reads the clock.
    It adds to the trace either nothing (not connected, or
    [json.dumps] raised, in which case that error reaches the caller)
    or exactly one [WsSend] of the serialised payload on the current
    handle. *)
Theorem send_touches_transport_once (E : Env) (w : world) (payload : json) :
  let w' := snd (send E payload w) in
  bot w' = bot w /\ ticks w' = ticks w
  /\ ((trace w' = trace w
       /\ (fst (send E payload w) = Raise NotConnected /\ ws (bot w) = None
           \/ exists e, fst (send E payload w) = Raise e
                        /\ json_dumps E payload = Raise e))
      \/ exists h text, ws (bot w) = Some h
                        /\ json_dumps E payload = Ok text
                        /\ trace w' = trace w ++ [WsSend h text]).
Proof.
  cbv zeta. unfold send. run_M.
  destruct (ws (bot w)) as [h|] eqn:Hws; simpl.
  - destruct (json_dumps E payload) as [text|e] eqn:Hd; simpl.
    + destruct (ws_send E h text _); simpl;
        (split; [reflexivity|split; [reflexivity|right; eauto]]).
    + split; [reflexivity|split; [reflexivity|left]].
      split; [reflexivity|right; eauto].
  - split; [reflexivity|split; [reflexivity|left]].
    split; [reflexivity|left; auto].
Qed.

(* ===================================================================== *)
(** * The run loop inside one window *)
(* ===================================================================== *)

Section RunLoop.

Context (E : Env).

Lemma prune_from_ticks_le fuel : forall i l t,
  (snd (Limiter.prune_from (clock E) fuel i l t) <= t + fuel)%nat.
Proof.
  induction fuel as [|fuel IH]; intros i l t; simpl; [lia|].
  destruct (l !! i) as [a|]; simpl; [|lia].
  destruct (10 <? Limiter.timedelta_seconds (clock E t - a));
    match goal with |- (snd (Limiter.prune_from _ _ ?j ?m _) <= _)%nat =>
      specialize (IH j m (S t)) end; lia.
Qed.

(** A check reads the clock at most once per item and once more. *)
Lemma check_of_ticks_le w :
  (snd (snd (check_of E w))
     <= ticks w + length (_reconnection_attempts (bot w)) + 2)%nat.
Proof.
  unfold check_of, Limiter.check.
  pose proof (prune_from_ticks_le
                (length (_reconnection_attempts (bot w) ++ [clock E (ticks w)])) 0
                (_reconnection_attempts (bot w) ++ [clock E (ticks w)])
                (S (ticks w))) as Hle.
  destruct (Limiter.prune_from _ _ 0 _ _) as [l2 t2].
  rewrite length_app in Hle. simpl in Hle.
  destruct (5 <=? length l2)%nat; simpl; lia.
Qed.

Lemma connects_app tr1 tr2 : connects (tr1 ++ tr2) = (connects tr1 + connects tr2)%nat.
Proof.
  induction tr1 as [|a tr1 IH]; [reflexivity|].
  destruct a; simpl; rewrite IH; reflexivity.
Qed.

Lemma connects_quiet tr : Forall quiet tr -> connects tr = 0%nat.
Proof.
  induction 1 as [|a tr Ha _ IH]; [reflexivity|].
  destruct a; simpl in *; auto; contradiction.
Qed.

Lemma listen_quietly w : quietly_after w (snd (_listen E w)).
Proof.
  apply (stays_listen E quietly_after quietly_after_refl quietly_after_trans).
  - intros a w0 Ha. split; [reflexivity|]. exists [a]. simpl. auto.
  - intros f args w0. rewrite call_snd. split; [reflexivity|].
    exists [Invoke f args]. simpl. split; [reflexivity|]. repeat constructor.
Qed.

(** The [try] block of [connect] opens one connection, reads no
    clock, and leaves the list of attempts to user code. *)
Lemma connect_and_listen_effect w :
  attempts_untouched E ->
  ticks (snd (connect_and_listen E w)) = ticks w
  /\ connects (trace (snd (connect_and_listen E w))) = S (connects (trace w))
  /\ _reconnection_attempts (bot (snd (connect_and_listen E w)))
     = _reconnection_attempts (bot w).
Proof.
  intros Huser. split; [|split].
  - unfold connect_and_listen. run_M.
    destruct (ws_connect E (uri (bot w)) _) as [h|e]; simpl; [|reflexivity].
    match goal with |- context [_listen E ?w1] =>
      destruct (listen_quietly w1) as [Ht _]; destruct (_listen E w1) as [r w2] end.
    exact Ht.
  - unfold connect_and_listen. run_M.
    destruct (ws_connect E (uri (bot w)) _) as [h|e]; simpl.
    + match goal with |- context [_listen E ?w1] =>
        destruct (listen_quietly w1) as (_ & tail & Htr & Hq);
        destruct (_listen E w1) as [r w2] end.
      simpl in *. rewrite Htr, !connects_app, (connects_quiet tail Hq).
      simpl. lia.
    + rewrite connects_app. simpl. lia.
  - apply (kept_connect_and_listen E
             (fun b => _reconnection_attempts b = _reconnection_attempts (bot w))).
    + intros f args b Hb. now rewrite Huser.
    + intros h b Hb. exact Hb.
    + reflexivity.
Qed.

Lemma close_effect w :
  ticks (snd (close E w)) = ticks w
  /\ connects (trace (snd (close E w))) = connects (trace w).
Proof.
  unfold close. run_M. destruct (ws (bot w)) as [h|]; simpl; [|auto].
  destruct (ws_close E h _); simpl; rewrite connects_app; simpl; lia.
Qed.

Lemma window_holds_same T tmax c w w' :
  ticks w' = ticks w ->
  _reconnection_attempts (bot w') = _reconnection_attempts (bot w) ->
  window_holds E T tmax c w -> window_holds E T tmax c w'.
Proof. unfold window_holds. intros -> ->. auto. Qed.

(** The run loop entered with [c] attempts of the window on record:
    it comes back after at most [5 - c] turns and opens at most
    [4 - c] connections. *)
Lemma connect_in_window T tmax :
  attempts_untouched E ->
  forall fuel w c,
  (c <= 4)%nat -> (4 - c < fuel)%nat ->
  (forall i j, (ticks w <= i <= j)%nat -> (j < tmax)%nat ->
               clock E i <= clock E j) ->
  (forall i, (ticks w <= i < tmax)%nat -> clock E i <= T + 10000000) ->
  (ticks w + (5 - c) * (length (_reconnection_attempts (bot w)) + 7) <= tmax)%nat ->
  window_holds E T tmax c w ->
  exists r w', connect E fuel w = Some (r, w')
    /\ (connects (trace w') + c <= connects (trace w) + 4)%nat
    /\ (ticks w' <= tmax)%nat.
Proof.
  intros Huser. induction fuel as [|fuel IH];
    intros w c Hc Hfuel Hmono Hwin Hbudget Hinv; [lia|].
  pose proof (check_of_ticks_le w) as Hle.
  pose proof (check_ticks (clock E) (_reconnection_attempts (bot w)) (ticks w))
    as Hlt. fold (check_of E w) in Hlt.
  destruct (check_lengths (clock E) (_reconnection_attempts (bot w)) (ticks w))
    as (_ & Hlen & _). fold (check_of E w) in Hlen.
  assert (Hmax : (ticks (snd (_should_reconnect E w)) <= tmax)%nat).
  { rewrite should_reconnect_unfold. simpl.
    destruct c as [|[|[|[|[|c]]]]]; simpl in Hbudget; lia. }
  destruct (should_reconnect_in_window E T tmax c w Hmono Hwin Hmax Hinv)
    as [Hinv1 Hrefuse].
  cbn [connect]. revert Hmax Hinv1 Hrefuse. rewrite should_reconnect_unfold.
  cbn [fst snd]. set (w1 := mkWorld _ _ _).
  intros Hmax Hinv1 Hrefuse.
  destruct (fst (check_of E w)) eqn:Hb.
  - (* admitted *)
    assert (Hc4 : (c < 4)%nat).
    { destruct (le_lt_dec 4 c) as [H4|H4]; [|exact H4].
      specialize (Hrefuse H4). discriminate Hrefuse. }
    destruct (connect_and_listen_effect w1 Huser) as (Htk & Hcn & Hat).
    assert (Hnext : forall w3,
               ticks w3 = ticks w1 ->
               _reconnection_attempts (bot w3) = _reconnection_attempts (bot w1) ->
               (connects (trace w3) = S (connects (trace w)))%nat ->
               exists r w', connect E fuel w3 = Some (r, w')
                 /\ (connects (trace w') + c <= connects (trace w) + 4)%nat
                 /\ (ticks w' <= tmax)%nat).
    { intros w3 Ht3 Ha3 Hc3.
      destruct (IH w3 (S c)) as (r & w' & Hrun & Hcount & Hticks).
      - lia.
      - lia.
      - intros i j Hij Hj. apply Hmono; [|exact Hj].
        rewrite Ht3 in Hij. subst w1. simpl in Hij. lia.
      - intros i Hi. apply Hwin. rewrite Ht3 in Hi. subst w1. simpl in Hi. lia.
      - rewrite Ht3, Ha3. subst w1. simpl.
        destruct c as [|[|[|[|c]]]]; simpl in *; lia.
      - now apply (window_holds_same T tmax (S c) w1 w3).
      - exists r, w'. split; [exact Hrun|]. split; [lia|exact Hticks]. }
    destruct (connect_and_listen E w1) as [[[]|e] w2]; simpl in Htk, Hcn, Hat.
    + unfold log, record. run_M. simpl. apply Hnext; simpl; auto.
      rewrite !connects_app. simpl. subst w1. simpl in Hcn. lia.
    + destruct (decide (e = KeyboardInterrupt)).
      * destruct (close_effect w2) as [Htc Hcc].
        destruct (close E w2) as [r3 w3]. simpl in Htc, Hcc.
        exists r3, w3. split; [reflexivity|].
        subst w1. simpl in *. split; lia.
      * destruct (is_Exception e).
        -- unfold log, record. run_M. simpl. apply Hnext; simpl; auto.
           rewrite !connects_app. simpl. subst w1. simpl in Hcn. lia.
        -- exists (Raise e), w2. split; [reflexivity|].
           subst w1. simpl in *. split; lia.
  - (* refused *)
    unfold log, record. simpl. eexists _, _. split; [reflexivity|].
    simpl. rewrite connects_app. simpl. subst w1. simpl in Hmax. split; lia.
Qed.

End RunLoop.

(** C1.  The run loop: start [connect] in any state of the bot, with
    user code that leaves the list of attempts alone, and let all the
    clock readings it can make in five turns go forward and lie within
    ten seconds of the first.  Whatever the transport does (refuse,
    or connect and drop the connection), [connect] comes back within
    five turns and has opened at most four connections: the limiter
    keeps every attempt of the window on record and the check that
    finds five of them ends the loop instead of retrying.
    The single check: after at least five admission checks made one
    after the other, all readings going forward and within ten
    seconds of the first, the next check (the sixth, when five came
    before) returns false, [connect] entered at it logs that the
    attempts are used up and returns without opening a connection,
    and of all these checks at most four have been admitted. *)
Theorem C1_sixth_attempt_refused (E : Env) :
  (forall (w : world) (fuel tmax : nat),
     attempts_untouched E ->
     (5 <= fuel)%nat ->
     (ticks w + 5 * (length (_reconnection_attempts (bot w)) + 7) <= tmax)%nat ->
     (forall i j, (ticks w <= i <= j)%nat -> (j < tmax)%nat ->
                  clock E i <= clock E j) ->
     (forall i, (ticks w <= i < tmax)%nat ->
                clock E i <= clock E (ticks w) + 10000000) ->
     exists r w', connect E fuel w = Some (r, w')
       /\ (connects (trace w') <= connects (trace w) + 4)%nat
       /\ (ticks w' <= tmax)%nat)
  /\ (forall (w0 : world) (n fuel : nat),
        (5 <= n)%nat ->
        let w5 := snd (attempts E n w0) in
        let w6 := snd (_should_reconnect E w5) in
        (forall i j, (ticks w0 <= i <= j)%nat -> (j < ticks w6)%nat ->
                     clock E i <= clock E j) ->
        (forall i, (ticks w0 <= i < ticks w6)%nat ->
                   clock E i <= clock E (ticks w0) + 10000000) ->
        fst (_should_reconnect E w5) = Ok false
        /\ connect E (S fuel) w5
           = Some (Ok tt,
                   mkWorld (bot w6) (trace w5 ++ [Log InfoExceeded]) (ticks w6))
        /\ exists rs, fst (attempts E (S n) w0) = Ok rs /\ length rs = S n
                      /\ (count_occ Bool.bool_dec rs true <= 4)%nat).
Proof.
  split.
  - intros w fuel tmax Huser Hfuel Hbudget Hmono Hwin.
    destruct (connect_in_window E (clock E (ticks w)) tmax Huser fuel w 0)
      as (r & w' & Hrun & Hcount & Hticks); try assumption; try lia.
    + exists (clock E (ticks w)). split; [lia|]. split; [|lia].
      intros i Hi. apply Hmono; lia.
    + exists r, w'. split; [exact Hrun|]. split; [lia|exact Hticks].
  - intros w0 n fuel. apply sixth_check_in_window.
Qed.

Lemma C1_sixth_attempt_refused_witness :
  let E := {| clock := clock Demo.env; json_loads := json_loads Demo.env;
              json_dumps := json_dumps Demo.env; py_int := py_int Demo.env;
              run_callable := run_callable Demo.env;
              ws_connect := fun _ _ => Ok 7%nat;
              ws_frames := fun _ => ([Demo.frame "alice" "hello"],
                                     Some ConnectionClosed);
              ws_send := ws_send Demo.env; ws_close := ws_close Demo.env |} in
  (exists r w', connect E 5 Demo.start = Some (r, w')
     /\ (connects (trace w') <= connects (trace Demo.start) + 4)%nat
     /\ (ticks w' <= 35)%nat)
  /\ fst (_should_reconnect Demo.env (snd (attempts Demo.env 5 Demo.start)))
     = Ok false.
Proof.
  intros E. split.
  - destruct (C1_sixth_attempt_refused E) as [Hloop _].
    apply (Hloop Demo.start 5%nat 35%nat).
    + intros f args b. reflexivity.
    + lia.
    + simpl. lia.
    + intros i j Hij _. simpl. lia.
    + intros i Hi. simpl. lia.
  - destruct (C1_sixth_attempt_refused Demo.env) as [_ Hcheck].
    apply (Hcheck Demo.start 5%nat 0%nat).
    + lia.
    + intros i j Hij _. simpl. lia.
    + intros i Hi. vm_compute in Hi. simpl. lia.
Defined.

(** Such a run computed: a transport that connects and drops the
    connection at once, four times over; the fifth admission check
    ends the loop. *)
Example connect_gives_up_when_flapping :
  let E := {| clock := clock Demo.env; json_loads := json_loads Demo.env;
              json_dumps := json_dumps Demo.env; py_int := py_int Demo.env;
              run_callable := run_callable Demo.env;
              ws_connect := fun _ _ => Ok 7%nat;
              ws_frames := fun _ => ([], Some ConnectionClosed);
              ws_send := ws_send Demo.env; ws_close := ws_close Demo.env |} in
  exists w, connect E 5 Demo.start = Some (Ok tt, w)
    /\ connects (trace w) = 4%nat
    /\ last (trace w) = Some (Log InfoExceeded).
Proof. intros E. eexists. split; [vm_compute; reflexivity|]. split; reflexivity. Qed.
